(** * buildcatrust.der_x509 in Rocq

    A shallow embedding of [src/buildcatrust/der_x509.py]: the DER length and
    base-128 codecs, the tag-length-value walker, the ObjectID codec, the
    TBSCertificate / Certificate structural decoders, the certificate
    extension encoder, the OpenSSL auxiliary-trust codec, the
    trusted-certificate combinator, the DistinguishedName decoder and the PEM
    stream decoder.

    Conventions.
    - Python [bytes] / [bytearray] values are [list byte]; the integer value of
      an octet is [bv].
    - Python [int] is [Z].
    - A Python call either returns or raises: [result A] is [Ok a] or
      [Raise e].  Indexing an empty sequence raises [IndexError], a failed
      [assert] raises [AssertionError], storing a value outside
      [range(0, 256)] in a [bytearray] raises [ValueError].
    - Slices never raise: [b[:n]] is [take n b] and [b[n:]] is [drop n b]
      (every [n] sliced with in the source is a decoded length, hence [>= 0]).
*)

From Stdlib Require Import ZArith List Lia Bool.
From Stdlib.Strings Require Import Byte String Ascii.
Import ListNotations.
Local Open Scope Z_scope.

(** ** Exceptions and the error monad *)

Inductive exn : Set :=
| IndexError
| AssertionError
| ValueError
| TypeError
| OverflowError
| UnboundLocalError
| NoProgress.   (* a modelled [while] loop ran out of its iteration budget;
                   shown unreachable below *)

Inductive result (A : Type) : Type :=
| Ok (a : A)
| Raise (e : exn).
Arguments Ok {A} a.
Arguments Raise {A} e.

Definition bind {A B : Type} (m : result A) (k : A -> result B) : result B :=
  match m with
  | Ok a => k a
  | Raise e => Raise e
  end.

Notation "x <- m ;; k" := (bind m (fun x => k))
  (at level 61, m at next level, right associativity).
Notation "' p <- m ;; k" := (bind m (fun x => match x with p => k end))
  (at level 61, p pattern, m at next level, right associativity).

(** [assert c] *)
Definition py_assert (c : bool) : result unit :=
  if c then Ok tt else Raise AssertionError.

(** ** Bytes *)

Abbreviation bytes := (list byte) (only parsing).

(** The integer value of an octet, [b[0]] read as an [int]. *)
Definition bv (b : byte) : Z := Z.of_N (Byte.to_N b).

(** The octet with value [z]; total, used where the source's value is in
    range by construction (a masked value). *)
Definition byte_of (z : Z) : byte :=
  match Byte.of_N (Z.to_N z) with
  | Some b => b
  | None => x00
  end.

(** [bytearray([z])] / [buf.append(z)]: [ValueError] outside [range(0, 256)]. *)
Definition mk_byte (z : Z) : result byte :=
  if (z <? 0) || (255 <? z) then Raise ValueError else Ok (byte_of z).

Definition byte_eqb (a b : byte) : bool := bv a =? bv b.

Fixpoint bytes_eqb (a b : bytes) : bool :=
  match a, b with
  | [], [] => true
  | x :: a', y :: b' => byte_eqb x y && bytes_eqb a' b'
  | _, _ => false
  end.

(** [b[:n]] and [b[n:]] for [n >= 0]. *)
Definition take (n : Z) (b : bytes) : bytes := firstn (Z.to_nat n) b.
Definition drop (n : Z) (b : bytes) : bytes := skipn (Z.to_nat n) b.

(** [len(b)] *)
Definition len (b : bytes) : Z := Z.of_nat (List.length b).

(** [int.from_bytes(b, "big")] *)
Definition from_bytes_big (b : bytes) : Z :=
  fold_left (fun acc x => acc * 256 + bv x) b 0.

(** [n.to_bytes(k, "big")] for [n >= 0]: [OverflowError] when [n] does not
    fit in [k] octets. *)
Fixpoint to_bytes_octets (k : nat) (n : Z) : bytes :=
  match k with
  | O => []
  | S k' => byte_of (Z.shiftr n (8 * Z.of_nat k') mod 256) :: to_bytes_octets k' n
  end.

Definition to_bytes_big (n : Z) (k : Z) : result bytes :=
  if (n <? 0) || (2 ^ (8 * k) <=? n) then Raise OverflowError
  else Ok (to_bytes_octets (Z.to_nat k) n).

(** [n.bit_length()] *)
Definition bit_length (n : Z) : Z :=
  if n =? 0 then 0 else Z.log2 (Z.abs n) + 1.

(** ** Length and integer codec *)

(** [_decode_len] *)
Definition _decode_len (i : bytes) : result (Z * bytes * bytes) :=
  match i with
  | [] => Raise IndexError
  | i0 :: _ =>
      if 0x80 <? bv i0 then
        let length_length := Z.land (bv i0) 0x7F in
        Ok (from_bytes_big (take length_length (drop 1 i)),
            take (1 + length_length) i,
            drop (1 + length_length) i)
      else Ok (bv i0, take 1 i, drop 1 i)
  end.

(** [_encode_len] *)
Definition _encode_len (n : Z) : result bytes :=
  if n <? 0x80 then
    b <- mk_byte n ;; Ok [b]
  else
    let length_bytes := (bit_length n + 7) / 8 in
    _ <- py_assert (length_bytes <? 0x80) ;;
    b <- mk_byte (Z.lor length_bytes 0x80) ;;
    tail <- to_bytes_big n length_bytes ;;
    Ok (b :: tail).

(** [_encode_int]: the [while n > 0] loop appends one septet per round,
    least significant first.  [fuel] bounds the rounds; [_encode_int] passes
    the bit length of [n], which the loop never exhausts
    ([encode_int_loop_fuel]). *)
Fixpoint encode_int_loop (fuel : nat) (n : Z) (nbuf : bytes) : bytes :=
  match fuel with
  | O => nbuf
  | S fuel' =>
      if 0 <? n then
        encode_int_loop fuel' (Z.shiftr n 7)
          (nbuf ++ [byte_of (Z.lor (Z.land n 0x7F) 0x80)])
      else nbuf
  end.

Definition _encode_int (n : Z) : result bytes :=
  if n <? 0x80 then
    b <- mk_byte n ;; Ok [b]
  else
    match encode_int_loop (Z.to_nat (bit_length n)) n [] with
    | [] => Raise IndexError
    | b0 :: tl => Ok (rev (byte_of (Z.land (bv b0) 0x7F) :: tl))
    end.

(** [_decode_int]: the [while True] loop walks [b] from [pos = 0]; reading
    past the end raises [IndexError]. *)
Fixpoint decode_int_loop (n : Z) (b : bytes) : result (Z * bytes) :=
  match b with
  | [] => Raise IndexError
  | x :: b' =>
      let n' := Z.lor (Z.shiftl n 7) (Z.land (bv x) 0x7F) in
      if Z.land (bv x) 0x80 =? 0 then Ok (n', b') else decode_int_loop n' b'
  end.

Definition _decode_int (b : bytes) : result (Z * bytes) :=
  match b with
  | [] => Raise IndexError
  | b0 :: b' =>
      if bv b0 <? 0x80 then Ok (bv b0, b') else decode_int_loop 0 b
  end.

(** [_dumb_decode] *)
Definition _dumb_decode (i : bytes) : result ((byte * bytes) * bytes) :=
  match i with
  | [] => Raise IndexError
  | tag :: _ =>
      '(der_len, length_bytes, buf) <- _decode_len (drop 1 i) ;;
      Ok ((tag, take 1 i ++ length_bytes ++ take der_len buf), drop der_len buf)
  end.

(** The prologue every structural decoder opens with:
    [assert b[0] == tag; n, _, b = _decode_len(b[1:]); b, rem = b[:n], b[n:]].
    It returns the content [b] and the remainder [rem]. *)
Definition enter (tag : Z) (b : bytes) : result (bytes * bytes) :=
  match b with
  | [] => Raise IndexError
  | b0 :: _ =>
      _ <- py_assert (bv b0 =? tag) ;;
      '(n, _, b) <- _decode_len (drop 1 b) ;;
      Ok (take n b, drop n b)
  end.


(** [der_int_to_python] *)
Definition der_int_to_python (i : bytes) : result (Z * bytes * bytes) :=
  match i with
  | [] => Raise IndexError
  | i0 :: _ =>
      _ <- py_assert (bv i0 =? 0x02) ;;
      '(length, length_bytes, data) <- _decode_len (drop 1 i) ;;
      _ <- py_assert (len data =? length) ;;
      Ok (from_bytes_big data,
          take 1 i ++ length_bytes ++ take length data,
          drop length data)
  end.

(** ** ObjectID *)

Module ObjectID.

Record t : Type := mk { name : option string; oid : list Z }.

(** [__eq__]: [self.oid == other.oid], the display name is not consulted. *)
Fixpoint arcs_eqb (a b : list Z) : bool :=
  match a, b with
  | [], [] => true
  | x :: a', y :: b' => (x =? y) && arcs_eqb a' b'
  | _, _ => false
  end.

Definition eqb (self other : t) : bool := arcs_eqb (oid self) (oid other).

(** The builtin [hash] applied to a Python [list]: lists are unhashable, the
    call raises [TypeError] whatever the list holds. *)
Definition py_hash_list (l : list Z) : result Z := Raise TypeError.

(** [__hash__]: [hash(self.oid)], where [oid] is a [List[int]]. *)
Definition hash (self : t) : result Z := py_hash_list (oid self).

(** The [for n in self.oid[2:]: buf.extend(_encode_int(n))] loop. *)
Fixpoint encode_arcs (arcs : list Z) : result bytes :=
  match arcs with
  | [] => Ok []
  | n :: rest =>
      e <- _encode_int n ;;
      r <- encode_arcs rest ;;
      Ok (e ++ r)
  end.

(** The content octets [buf] that [as_der] builds before it adds the
    header. *)
Definition content (self : t) : result bytes :=
  match oid self with
  | a :: b :: rest =>
      first <- mk_byte (40 * a + b) ;;
      tl <- encode_arcs rest ;;
      Ok (first :: tl)
  | _ => Raise IndexError
  end.

Definition as_der (self : t) : result bytes :=
  buf <- content self ;;
  prefix <- _encode_len (len buf) ;;
  Ok (x06 :: prefix ++ buf).

(** The [while b: oid_seg, b = _decode_int(b)] loop.  Every round consumes at
    least one octet, so [length b] rounds suffice ([decode_arcs_progress]). *)
Fixpoint decode_arcs (fuel : nat) (b : bytes) : result (list Z) :=
  match b with
  | [] => Ok []
  | _ :: _ =>
      match fuel with
      | O => Raise NoProgress
      | S fuel' =>
          '(oid_seg, b') <- _decode_int b ;;
          rest <- decode_arcs fuel' b' ;;
          Ok (oid_seg :: rest)
      end
  end.

Definition from_der (b : bytes) : result (t * bytes) :=
  '(b, trailing) <- enter 0x06 b ;;
  match b with
  | [] => Raise IndexError
  | c :: b =>
      let first := Z.min (bv c / 40) 2 in
      let second := bv c - first * 40 in
      rest <- decode_arcs (List.length b) b ;;
      Ok (mk None (first :: second :: rest), trailing)
  end.

End ObjectID.

(** ** DerSerializable, ExtendedKeyUsages, CertExtension *)

Class DerSerializable (A : Type) : Type := as_der : A -> result bytes.

#[export] Instance ObjectID_DerSerializable : DerSerializable ObjectID.t :=
  ObjectID.as_der.

(** The [for oid in oids: buf.extend(oid.as_der())] loop shared by
    [ExtendedKeyUsages.as_der] and [OpenSSLCertAux.encode_oids]. *)
Fixpoint extend_oids (oids : list ObjectID.t) : result bytes :=
  match oids with
  | [] => Ok []
  | o :: rest =>
      e <- ObjectID.as_der o ;;
      r <- extend_oids rest ;;
      Ok (e ++ r)
  end.

Module ExtendedKeyUsages.

Record t : Type := mk { oids : list ObjectID.t }.

Definition as_der (self : t) : result bytes :=
  buf <- extend_oids (oids self) ;;
  prefix <- _encode_len (len buf) ;;
  Ok (x30 :: prefix ++ buf).

End ExtendedKeyUsages.

#[export] Instance ExtendedKeyUsages_DerSerializable :
  DerSerializable ExtendedKeyUsages.t := ExtendedKeyUsages.as_der.

Module CertExtension.

Record t (E : Type) : Type :=
  mk { ext_id : ObjectID.t; critical : bool; extension : E }.
Arguments mk {E} _ _ _.
Arguments ext_id {E} _.
Arguments critical {E} _.
Arguments extension {E} _.

Definition as_der {E : Type} `{DerSerializable E} (self : t E) : result bytes :=
  id_der <- ObjectID.as_der (ext_id self) ;;
  let buf := id_der ++ (if critical self then [x01; x01; xff] else []) in
  extension_der <- as_der (extension self) ;;
  len_der <- _encode_int (len extension_der) ;;
  let buf := buf ++ [x04] ++ len_der ++ extension_der in
  prefix <- _encode_len (len buf) ;;
  Ok (x30 :: prefix ++ buf).

End CertExtension.

(** ** TBSCertificate and Certificate *)

Module TBSCertificate.

Record t : Type := mk {
  serial_number : bytes;
  signature : bytes;
  issuer : bytes;
  validity : bytes;
  subject : bytes;
  subject_public_key_info : bytes;
  version : option bytes;
  issuer_unique_id : option bytes;
  subject_unique_id : option bytes;
  extensions : option bytes
}.

(** The decoder's running locals [(tag, dec_bytes), b]. *)
Definition cursor : Type := ((byte * bytes) * bytes)%type.

(** [if b: (tag, dec_bytes), b = _dumb_decode(b)] *)
Definition advance (c : cursor) : result cursor :=
  match snd c with
  | [] => Ok c
  | _ :: _ => _dumb_decode (snd c)
  end.

(** One of the three blocks
    [if tag == want: data[field] = dec_bytes; if b: ... = _dumb_decode(b)]. *)
Definition optional_field (want : Z) (c : cursor) : result (option bytes * cursor) :=
  if bv (fst (fst c)) =? want then
    c' <- advance c ;; Ok (Some (snd (fst c)), c')
  else Ok (None, c).

(** [(tag, dec_bytes), b = _dumb_decode(b); assert tag == want] *)
Definition expect (want : Z) (b : bytes) : result (bytes * bytes) :=
  '((tag, dec_bytes), b) <- _dumb_decode b ;;
  _ <- py_assert (bv tag =? want) ;;
  Ok (dec_bytes, b).

(** The first element or two: the optional version (tag 0xA0), then the
    serial number (tag 0x02). *)
Definition version_and_serial (b : bytes) : result (option bytes * bytes * bytes) :=
  '((tag, dec_bytes), b) <- _dumb_decode b ;;
  if bv tag =? 0xA0 then
    '(serial_number, b) <- expect 0x02 b ;;
    Ok (Some dec_bytes, serial_number, b)
  else
    _ <- py_assert (bv tag =? 0x02) ;;
    Ok (None, dec_bytes, b).

(** The closing [if b:] block: the unique identifiers and the extensions. *)
Definition optional_fields (b : bytes)
  : result (option bytes * option bytes * option bytes) :=
  match b with
  | [] => Ok (None, None, None)
  | _ :: _ =>
      c <- _dumb_decode b ;;
      '(issuer_unique_id, c) <- optional_field 0xA1 c ;;
      '(subject_unique_id, c) <- optional_field 0xA2 c ;;
      '(extensions, c) <- optional_field 0xA3 c ;;
      Ok (issuer_unique_id, subject_unique_id, extensions)
  end.

Definition from_der (b : bytes) : result (t * bytes) :=
  '(b, rem) <- enter 0x30 b ;;
  '(version, serial_number, b) <- version_and_serial b ;;
  '(signature, b) <- expect 0x30 b ;;
  '(issuer, b) <- expect 0x30 b ;;
  '(validity, b) <- expect 0x30 b ;;
  '(subject, b) <- expect 0x30 b ;;
  '(subject_public_key_info, b) <- expect 0x30 b ;;
  '(issuer_unique_id, subject_unique_id, extensions) <- optional_fields b ;;
  Ok (mk serial_number signature issuer validity subject
         subject_public_key_info version issuer_unique_id
         subject_unique_id extensions, rem).

End TBSCertificate.

Module Certificate.

Record t : Type := mk {
  tbs_certificate : TBSCertificate.t;
  signature_algorithm : bytes;
  signature_value : bytes
}.

Definition from_der (b : bytes) : result (t * bytes) :=
  '(b, rem) <- enter 0x30 b ;;
  '(tbs_certificate, b) <- TBSCertificate.from_der b ;;
  '((tag, signature_algorithm), b) <- _dumb_decode b ;;
  _ <- py_assert (bv tag =? 0x30) ;;
  '((tag, signature_value), b) <- _dumb_decode b ;;
  _ <- py_assert (bv tag =? 0x03) ;;
  _ <- py_assert (match b with [] => true | _ :: _ => false end) ;;
  Ok (mk tbs_certificate signature_algorithm signature_value, rem).

End Certificate.

(** ** PEMBlock and the PEM stream decoder *)

Module PEMBlock.

Record t : Type := mk { name : string; content : bytes }.

(** A local variable that is read before any assignment raises
    [UnboundLocalError]. *)
Inductive local (A : Type) : Type :=
| Unbound
| Bound (a : A).
Arguments Unbound {A}.
Arguments Bound {A} a.

Definition newline : ascii := "010"%char.
Definition dash : ascii := "-"%char.

(** [strip_literal lit s]: [s] with the literal [lit] removed from its
    front, when [s] starts with it. *)
Fixpoint strip_literal (lit s : list ascii) : option (list ascii) :=
  match lit, s with
  | [], _ => Some s
  | c :: lit', d :: s' => if Ascii.eqb c d then strip_literal lit' s' else None
  | _ :: _, [] => None
  end.

(** [[^-]+], greedy: the longest dash-free run at the front of [s] and what
    follows it. *)
Fixpoint dash_free_run (s : list ascii) : list ascii * list ascii :=
  match s with
  | [] => ([], [])
  | c :: s' =>
      if Ascii.eqb c dash then ([], s)
      else let '(run, rest) := dash_free_run s' in (c :: run, rest)
  end.

(** [$] without [re.MULTILINE]: the end of the string, or just before a
    newline that ends the string. *)
Definition at_dollar (s : list ascii) : bool :=
  match s with
  | [] => true
  | [c] => Ascii.eqb c newline
  | _ => false
  end.

(** [re.match(r"^-----BEGIN ([^-]+)-----$", ln)]; the result is group 1. *)
Definition begin_match (ln : string) : option string :=
  match strip_literal (list_ascii_of_string "-----BEGIN ") (list_ascii_of_string ln) with
  | None => None
  | Some s =>
      match dash_free_run s with
      | ([], _) => None
      | (label, rest) =>
          match strip_literal (list_ascii_of_string "-----") rest with
          | Some tl => if at_dollar tl then Some (string_of_list_ascii label) else None
          | None => None
          end
      end
  end.

(** [re.match(f"^-----END {re.escape(name)}-----$", ln)] as a truth value. *)
Definition end_match (name ln : string) : bool :=
  match strip_literal
          (list_ascii_of_string ("-----END " ++ name ++ "-----")%string)
          (list_ascii_of_string ln) with
  | Some tl => at_dollar tl
  | None => false
  end.

(** The first [for ln in fp] loop: the label of the BEGIN line if one is
    met, the lines before it, and the lines left in the stream. *)
Fixpoint scan_begin (fp prefix : list string)
  : option string * list string * list string :=
  match fp with
  | [] => (None, prefix, [])
  | ln :: fp' =>
      match begin_match ln with
      | Some label => (Some label, prefix, fp')
      | None => scan_begin fp' (prefix ++ [ln])
      end
  end.

(** The second [for ln in fp] loop: [end_match] is assigned in the loop body
    only, so it is still unbound when the stream holds no further line. *)
Fixpoint scan_end (name : string) (fp bits : list string) (end_match_var : local bool)
  : local bool * list string * list string :=
  match fp with
  | [] => (end_match_var, bits, [])
  | ln :: fp' =>
      if end_match name ln then (Bound true, bits, fp')
      else scan_end name fp' (bits ++ [ln]) (Bound false)
  end.

Section Decode.

(** [base64.b64decode] on the joined body lines; it may raise. *)
Variable b64decode : string -> result bytes.

(** [decode_from_file]: the value returned (or the exception raised) and the
    lines the stream [fp] still holds afterwards. *)
Definition decode_from_file (fp : list string)
  : result (option (string * t)) * list string :=
  match scan_begin fp [] with
  | (None, _, fp) => (Ok None, fp)
  | (Some name, prefix, fp) =>
      match scan_end name fp [] Unbound with
      | (Unbound, _, fp) => (Raise UnboundLocalError, fp)
      | (Bound false, _, fp) => (Ok None, fp)
      | (Bound true, bits, fp) =>
          (content <- b64decode (String.concat "" bits) ;;
           Ok (Some (String.concat "" prefix, mk name content)), fp)
      end
  end.

(** The lines [io.StringIO(b)] yields when iterated: each runs up to and
    including its newline, the last one may lack it. *)
Fixpoint read_lines (b : string) : list string :=
  match b with
  | EmptyString => []
  | String c b' =>
      if Ascii.eqb c newline then String c EmptyString :: read_lines b'
      else
        match read_lines b' with
        | [] => [String c EmptyString]
        | ln :: lns => String c ln :: lns
        end
  end.

(** [decode]: [decode_from_file] on a [StringIO] over [b], then
    [sio.read()], the text of the lines left. *)
Definition decode (b : string) : result (option (string * t * string)) :=
  match decode_from_file (read_lines b) with
  | (Raise e, _) => Raise e
  | (Ok None, _) => Ok None
  | (Ok (Some (prefix, block)), fp) =>
      Ok (Some (prefix, block, String.concat "" fp))
  end.

End Decode.

End PEMBlock.

(** ** OpenSSLCertAux *)

Module OpenSSLCertAux.

Record t : Type := mk { trust : list ObjectID.t; reject : list ObjectID.t }.

(** List equality as the generated [__eq__] computes it, element by element
    with [ObjectID.__eq__]. *)
Fixpoint oids_eqb (a b : list ObjectID.t) : bool :=
  match a, b with
  | [], [] => true
  | x :: a', y :: b' => ObjectID.eqb x y && oids_eqb a' b'
  | _, _ => false
  end.

Definition eqb (self other : t) : bool :=
  oids_eqb (trust self) (trust other) && oids_eqb (reject self) (reject other).

Definition encode_oids (oids : list ObjectID.t) (tag : byte) : result bytes :=
  buf <- extend_oids oids ;;
  prefix <- _encode_len (len buf) ;;
  Ok (tag :: prefix ++ buf).

(** The content octets [buf] that [as_der] builds before it adds the
    header: the trust list, then the reject list [if self.reject]. *)
Definition content (self : t) : result bytes :=
  trust_der <- encode_oids (trust self) x30 ;;
  reject_der <-
    match reject self with
    | [] => Ok []
    | _ :: _ => encode_oids (reject self) xa0
    end ;;
  Ok (trust_der ++ reject_der).

Definition as_der (self : t) : result bytes :=
  buf <- content self ;;
  prefix <- _encode_len (len buf) ;;
  Ok (x30 :: prefix ++ buf).

(** The [while trust_b: trust_oid, trust_b = ObjectID.from_der(trust_b)]
    loop (and its twin for [reject_b]).  Every round consumes at least two
    octets, so [length b] rounds suffice ([decode_oids_progress]). *)
Fixpoint decode_oids (fuel : nat) (b : bytes) : result (list ObjectID.t) :=
  match b with
  | [] => Ok []
  | _ :: _ =>
      match fuel with
      | O => Raise NoProgress
      | S fuel' =>
          '(o, b') <- ObjectID.from_der b ;;
          rest <- decode_oids fuel' b' ;;
          Ok (o :: rest)
      end
  end.

Definition from_der (b : bytes) : result (t * bytes) :=
  '(b, rem) <- enter 0x30 b ;;
  '(trust_b, b) <- enter 0x30 b ;;
  trust <- decode_oids (List.length trust_b) trust_b ;;
  reject <-
    match b with
    | b0 :: _ =>
        if bv b0 =? 0xA0 then
          '(reject_len, _, b) <- _decode_len (drop 1 b) ;;
          let reject_b := take reject_len b in
          decode_oids (List.length reject_b) reject_b
        else Ok []
    | [] => Ok []
    end ;;
  Ok (mk trust reject, rem).

End OpenSSLCertAux.

#[export] Instance OpenSSLCertAux_DerSerializable :
  DerSerializable OpenSSLCertAux.t := OpenSSLCertAux.as_der.

(** ** The trusted-certificate combinator *)

Definition to_trusted_certificate (cert : bytes) (certaux : OpenSSLCertAux.t)
  : result PEMBlock.t :=
  aux_der <- OpenSSLCertAux.as_der certaux ;;
  Ok (PEMBlock.mk "TRUSTED CERTIFICATE" (cert ++ aux_der)).

Definition parse_trusted_certificate (pb : PEMBlock.t)
  : result (bytes * OpenSSLCertAux.t * bytes) :=
  _ <- py_assert (String.eqb (PEMBlock.name pb) "TRUSTED CERTIFICATE") ;;
  '(cert, trailing) <- Certificate.from_der (PEMBlock.content pb) ;;
  let cert_bytes :=
    take (len (PEMBlock.content pb) - len trailing) (PEMBlock.content pb) in
  '(cert_aux, trailing) <- OpenSSLCertAux.from_der trailing ;;
  Ok (cert_bytes, cert_aux, trailing).

(** ** DistinguishedName *)

Module DistinguishedName.

Record t : Type := mk { bits : list (list (ObjectID.t * string)) }.

(** [seq_b[0] in (0x13, 0x14, 0x0C, 0x16, 0x1E)] *)
Definition is_string_tag (tag : byte) : bool :=
  (bv tag =? 0x13) || (bv tag =? 0x14) || (bv tag =? 0x0C)
  || (bv tag =? 0x16) || (bv tag =? 0x1E).

Section Decode.

(** [bytes.decode("utf-8")]; it may raise. *)
Variable utf8_decode : bytes -> result string.

(** The body of the inner [while set_b] loop: one attribute SEQUENCE read off
    the front of [set_b].  The source slices the string value with [seq_len],
    the length of the enclosing SEQUENCE, where [part_len] was just decoded;
    the model keeps that.  ([print(seq_b[0])] writes to standard output and
    raises [IndexError] on an empty [seq_b], as the [assert] after it does.) *)
Definition decode_pair (set_b : bytes) : result ((ObjectID.t * string) * bytes) :=
  match set_b with
  | [] => Raise IndexError
  | b0 :: _ =>
      _ <- py_assert (bv b0 =? 0x30) ;;
      '(seq_len, _, seq_b) <- _decode_len (drop 1 set_b) ;;
      let set_b := drop seq_len seq_b in
      let seq_b := take seq_len seq_b in
      '(seq_oid, seq_b) <- ObjectID.from_der seq_b ;;
      match seq_b with
      | [] => Raise IndexError
      | s0 :: _ =>
          _ <- py_assert (is_string_tag s0) ;;
          '(part_len, _, seq_b) <- _decode_len (drop 1 seq_b) ;;
          let part_b := take seq_len seq_b in
          let seq_b := drop seq_len seq_b in
          _ <- py_assert (match seq_b with [] => true | _ :: _ => false end) ;;
          s <- utf8_decode part_b ;;
          Ok ((seq_oid, s), set_b)
      end
  end.

(** What the [assert ..., "DN seq contained >2 parts"] is written for: the
    same body with the string value sliced by its own decoded length
    [part_len].  Not the source's behaviour; the reference [decode_pair] is
    compared with. *)
Definition decode_pair_by_part_len (set_b : bytes)
  : result ((ObjectID.t * string) * bytes) :=
  match set_b with
  | [] => Raise IndexError
  | b0 :: _ =>
      _ <- py_assert (bv b0 =? 0x30) ;;
      '(seq_len, _, seq_b) <- _decode_len (drop 1 set_b) ;;
      let set_b := drop seq_len seq_b in
      let seq_b := take seq_len seq_b in
      '(seq_oid, seq_b) <- ObjectID.from_der seq_b ;;
      match seq_b with
      | [] => Raise IndexError
      | s0 :: _ =>
          _ <- py_assert (is_string_tag s0) ;;
          '(part_len, _, seq_b) <- _decode_len (drop 1 seq_b) ;;
          let part_b := take part_len seq_b in
          let seq_b := drop part_len seq_b in
          _ <- py_assert (match seq_b with [] => true | _ :: _ => false end) ;;
          s <- utf8_decode part_b ;;
          Ok ((seq_oid, s), set_b)
      end
  end.

(** The inner [while set_b] loop. *)
Fixpoint decode_set (fuel : nat) (set_b : bytes) : result (list (ObjectID.t * string)) :=
  match set_b with
  | [] => Ok []
  | _ :: _ =>
      match fuel with
      | O => Raise NoProgress
      | S fuel' =>
          '(bit, set_b) <- decode_pair set_b ;;
          rest <- decode_set fuel' set_b ;;
          Ok (bit :: rest)
      end
  end.

(** The outer [while b] loop. *)
Fixpoint decode_sets (fuel : nat) (b : bytes)
  : result (list (list (ObjectID.t * string))) :=
  match b with
  | [] => Ok []
  | b0 :: _ =>
      match fuel with
      | O => Raise NoProgress
      | S fuel' =>
          '(set_b, b) <- enter 0x31 b ;;
          set_bits <- decode_set (List.length set_b) set_b ;;
          rest <- decode_sets fuel' b ;;
          Ok (set_bits :: rest)
      end
  end.

Definition from_der (b : bytes) : result (t * bytes) :=
  '(b, rem) <- enter 0x30 b ;;
  bits <- decode_sets (List.length b) b ;;
  Ok (mk bits, rem).

End Decode.

End DistinguishedName.

(** ** Predicates the statements below are written with *)

(** Arc sequences [ObjectID.as_der] can encode and [ObjectID.from_der] reads
    back: at least two arcs, the first one 0, 1 or 2, the second one below 40
    under a first arc 0 or 1, the two together within the single octet the
    codec gives them ([40 * first + second <= 255]), the others
    non-negative. *)
Definition encodable_arcs (arcs : list Z) : Prop :=
  match arcs with
  | a :: b :: rest =>
      0 <= a <= 2 /\ 0 <= b /\ (a < 2 -> b < 40) /\ 40 * a + b <= 255
      /\ Forall (fun n => 0 <= n) rest
  | _ => False
  end.

(** The content, once built, is short enough for [_encode_len]'s
    [assert length_bytes < 0x80]: fewer than [2 ^ 1016] octets. *)
Definition fits (content : result bytes) : Prop :=
  match content with
  | Ok buf => len buf < 2 ^ 1016
  | Raise _ => True
  end.

Definition encodable_oid (o : ObjectID.t) : Prop :=
  encodable_arcs (ObjectID.oid o) /\ fits (ObjectID.content o).

Definition encodable_oids (l : list ObjectID.t) : Prop :=
  Forall encodable_oid l /\ fits (extend_oids l).

Definition encodable_aux (aux : OpenSSLCertAux.t) : Prop :=
  encodable_oids (OpenSSLCertAux.trust aux)
  /\ encodable_oids (OpenSSLCertAux.reject aux)
  /\ fits (OpenSSLCertAux.content aux).

(** An identifier as the decoder rebuilds it: the same arcs, no name. *)
Definition anonymous (o : ObjectID.t) : ObjectID.t :=
  ObjectID.mk None (ObjectID.oid o).

(** [e] is one complete element with tag [tag]: the tag, a length field [lb]
    and a value [v], where the length decoder reads [lb] off whatever buffer
    starts with [lb ++ v] and finds the length of [v]. *)
Definition complete_element (tag : byte) (e : bytes) : Prop :=
  exists lb v,
    e = tag :: lb ++ v
    /\ forall rest, _decode_len (lb ++ v ++ rest) = Ok (len v, lb, v ++ rest).

(** A well-formed Certificate encoding: one complete SEQUENCE element that
    [Certificate.from_der] accepts, as the certificate [c]. *)
Definition well_formed_certificate (cert_der : bytes) (c : Certificate.t) : Prop :=
  complete_element x30 cert_der /\ Certificate.from_der cert_der = Ok (c, []).

(** An absent optional field contributes no octets. *)
Definition span (field : option bytes) : bytes :=
  match field with
  | Some e => e
  | None => []
  end.

(** The captured spans up to subjectPublicKeyInfo, in X.509 order. *)
Definition leading_spans (t : TBSCertificate.t) : bytes :=
  span (TBSCertificate.version t)
  ++ TBSCertificate.serial_number t
  ++ TBSCertificate.signature t
  ++ TBSCertificate.issuer t
  ++ TBSCertificate.validity t
  ++ TBSCertificate.subject t
  ++ TBSCertificate.subject_public_key_info t.

(** The captured optional spans that follow subjectPublicKeyInfo. *)
Definition trailing_spans (t : TBSCertificate.t) : bytes :=
  span (TBSCertificate.issuer_unique_id t)
  ++ span (TBSCertificate.subject_unique_id t)
  ++ span (TBSCertificate.extensions t).

(** All captured spans in fixed X.509 order. *)
Definition all_spans (t : TBSCertificate.t) : bytes :=
  leading_spans t ++ trailing_spans t.

(** An optional element: absent, or one complete element with the tag. *)
Definition optional_element (tag : byte) (field : option bytes) : Prop :=
  match field with
  | Some e => complete_element tag e
  | None => True
  end.

(** The DER OCTET STRING wrapping of [inner]: tag 0x04, the DER length of
    [inner] as [_encode_len] writes it, then [inner]. *)
Definition der_octet_string (inner : bytes) : result bytes :=
  prefix <- _encode_len (len inner) ;;
  Ok (x04 :: prefix ++ inner).

(** A decoder cursor whose captured span starts with the tag it carries. *)
Definition cursor_tagged (c : TBSCertificate.cursor) : Prop :=
  exists tl, snd (fst c) = fst (fst c) :: tl.

(** ** Sample data *)

(** A minimal TBSCertificate: serial number 1 and five empty SEQUENCEs. *)
Definition sample_tbs_content : bytes :=
  [x02; x01; x01; x30; x00; x30; x00; x30; x00; x30; x00; x30; x00].

Definition sample_tbs_der : bytes := [x30; x0d] ++ sample_tbs_content.

Definition sample_tbs : TBSCertificate.t :=
  TBSCertificate.mk [x02; x01; x01] [x30; x00] [x30; x00] [x30; x00]
    [x30; x00] [x30; x00] None None None None.

(** A minimal Certificate around it: an empty signatureAlgorithm SEQUENCE
    and a one-octet BIT STRING. *)
Definition sample_cert_content : bytes :=
  sample_tbs_der ++ [x30; x00; x03; x01; x00].

Definition sample_cert_der : bytes := [x30; x14] ++ sample_cert_content.

Definition sample_cert : Certificate.t :=
  Certificate.mk sample_tbs [x30; x00] [x03; x01; x00].

(** The same TBSCertificate followed, inside the SEQUENCE, by a NULL
    element no field captures. *)
Definition tbs_der_with_stray_null : bytes :=
  [x30; x0f] ++ sample_tbs_content ++ [x05; x00].

(** A TBSCertificate with every optional field present. *)
Definition tbs_der_all_fields : bytes :=
  [x30; x1a; xa0; x03; x02; x01; x02] ++ sample_tbs_content
  ++ [xa1; x00; xa2; x00; xa3; x00].

Definition tbs_all_fields : TBSCertificate.t :=
  TBSCertificate.mk [x02; x01; x01] [x30; x00] [x30; x00] [x30; x00]
    [x30; x00] [x30; x00] (Some [xa0; x03; x02; x01; x02])
    (Some [xa1; x00]) (Some [xa2; x00]) (Some [xa3; x00]).

(** id-kp-serverAuth, 1.3.6.1.5.5.7.3.1, and id-kp-emailProtection. *)
Definition serverAuth : ObjectID.t :=
  ObjectID.mk (Some "serverAuth"%string) [1; 3; 6; 1; 5; 5; 7; 3; 1].

Definition emailProtection : ObjectID.t :=
  ObjectID.mk (Some "emailProtection"%string) [1; 3; 6; 1; 5; 5; 7; 3; 4].

Definition sample_aux : OpenSSLCertAux.t :=
  OpenSSLCertAux.mk [serverAuth] [emailProtection].

(** sha256WithRSAEncryption, and an identifier under the arc 2.999. *)
Definition sha256WithRSAEncryption : ObjectID.t :=
  ObjectID.mk None [1; 2; 840; 113549; 1; 1; 11].

Definition rsaEncryption_arcs : list Z := [1; 2; 840; 113549; 1; 1; 1].

Definition oid_2_999_3 : ObjectID.t := ObjectID.mk None [2; 999; 3].

Definition aux_2_999_3 : OpenSSLCertAux.t := OpenSSLCertAux.mk [oid_2_999_3] [].

(** A DistinguishedName whose one attribute SEQUENCE holds the OID 2.5.4.3,
    the UTF8String "A" and then a second UTF8String "B". *)
Definition dn_with_two_values : bytes :=
  [x30; x0f; x31; x0d; x30; x0b; x06; x03; x55; x04; x03;
   x0c; x01; x41; x0c; x01; x42].

Definition commonName : ObjectID.t := ObjectID.mk None [2; 5; 4; 3].

(** An extension whose value is an ExtendedKeyUsages of 14 identifiers: its
    DER encoding is 143 octets long. *)
Definition extKeyUsage : ObjectID.t := ObjectID.mk None [2; 5; 29; 37].

Definition long_eku : ExtendedKeyUsages.t :=
  ExtendedKeyUsages.mk (repeat serverAuth 13 ++ repeat emailProtection 1).

Definition long_extension : CertExtension.t ExtendedKeyUsages.t :=
  CertExtension.mk extKeyUsage true long_eku.

(** PEM streams: text only, a block cut off before its END line, and a BEGIN
    line that ends the stream. *)
Definition pem_begin_x : string := "-----BEGIN X-----
".

Definition pem_no_begin : list string := ["some text
"; "AAAA
"]%string.

Definition pem_missing_end : list string := pem_no_begin ++ [pem_begin_x; "AAAA
"; "BBBB
"]%string.

(** The encodings the source produces for the long extension, computed. *)
Definition long_eku_der : bytes :=
  Eval vm_compute in
    match ExtendedKeyUsages.as_der long_eku with Ok d => d | Raise _ => [] end.

Definition extKeyUsage_der : bytes :=
  Eval vm_compute in
    match ObjectID.as_der extKeyUsage with Ok d => d | Raise _ => [] end.

(** The attribute SEQUENCE inside [dn_with_two_values]. *)
Definition attribute_with_two_values : bytes :=
  [x30; x0b; x06; x03; x55; x04; x03; x0c; x01; x41; x0c; x01; x42].

(** * Properties *)

(** *** Octets *)

Lemma bv_range (b : byte) : 0 <= bv b < 256.
Proof.
  unfold bv. pose proof (Byte.to_N_bounded b) as H. lia.
Qed.

Lemma bv_byte_of (z : Z) : 0 <= z < 256 -> bv (byte_of z) = z.
Proof.
  intros Hz. unfold bv, byte_of.
  pose proof (Byte.to_of_N_option_map (Z.to_N z)) as H.
  destruct (Byte.of_N (Z.to_N z)) as [b|]; simpl in H.
  - destruct (Z.to_N z <=? 255)%N; [|discriminate].
    injection H as ->. lia.
  - destruct (N.leb_spec (Z.to_N z) 255); [discriminate|lia].
Qed.

Lemma byte_of_bv (b : byte) : byte_of (bv b) = b.
Proof.
  unfold byte_of, bv. rewrite N2Z.id, Byte.of_to_N. reflexivity.
Qed.

Lemma bv_inj (a b : byte) : bv a = bv b -> a = b.
Proof.
  intros H. rewrite <- (byte_of_bv a), <- (byte_of_bv b), H. reflexivity.
Qed.

Lemma mk_byte_ok (z : Z) : 0 <= z < 256 -> mk_byte z = Ok (byte_of z).
Proof.
  intros Hz. unfold mk_byte.
  destruct (Z.ltb_spec z 0), (Z.ltb_spec 255 z); simpl; try lia. reflexivity.
Qed.

(** *** Bit-level facts *)
Lemma land_shifted_low (m g k : Z) :
  0 <= k -> 0 <= g < 2 ^ k -> Z.land (m * 2 ^ k) g = 0.
Proof.
  intros Hk Hg. apply Z.bits_inj'. intros i Hi.
  rewrite Z.land_spec, Z.bits_0.
  destruct (Z.lt_ge_cases i k) as [Hlt|Hge].
  - rewrite Z.mul_pow2_bits_low by lia. reflexivity.
  - assert (Hg0 : Z.testbit g i = false).
    { destruct (Z.eq_dec g 0) as [->|Hne]; [apply Z.bits_0|].
      apply Z.bits_above_log2; [lia|].
      apply Z.lt_le_trans with k; [|assumption].
      apply Z.log2_lt_pow2; lia. }
    rewrite Hg0. apply andb_false_r.
Qed.

Lemma lor_shifted_low (m g k : Z) :
  0 <= k -> 0 <= g < 2 ^ k -> Z.lor (m * 2 ^ k) g = m * 2 ^ k + g.
Proof.
  intros Hk Hg.
  rewrite Z.add_nocarry_lxor by (apply land_shifted_low; assumption).
  symmetry. apply Z.lxor_lor, land_shifted_low; assumption.
Qed.

Lemma land_0x7F (n : Z) : Z.land n 0x7F = n mod 128.
Proof. change 0x7F with (Z.ones 7). rewrite Z.land_ones by lia. reflexivity. Qed.

Lemma land_0x80_small (n : Z) : 0 <= n < 128 -> Z.land n 0x80 = 0.
Proof.
  intros H. rewrite Z.land_comm. change 0x80 with (1 * 2 ^ 7).
  apply land_shifted_low; lia.
Qed.

Lemma lor_0x80_small (n : Z) : 0 <= n < 128 -> Z.lor n 0x80 = n + 128.
Proof.
  intros H. rewrite Z.lor_comm. change 0x80 with (1 * 2 ^ 7).
  rewrite lor_shifted_low by lia. lia.
Qed.

Lemma land_0x80_marked (n : Z) : 0 <= n < 128 -> Z.land (n + 128) 0x80 = 128.
Proof.
  intros H. rewrite <- lor_0x80_small by assumption.
  rewrite Z.land_lor_distr_l, land_0x80_small by assumption. reflexivity.
Qed.

(** *** Slices and the length codec *)
Lemma take_app_exact (a b : bytes) : take (len a) (a ++ b) = a.
Proof.
  unfold take, len. rewrite Nat2Z.id.
  rewrite firstn_app, Nat.sub_diag, firstn_all. simpl. apply app_nil_r.
Qed.

Lemma drop_app_exact (a b : bytes) : drop (len a) (a ++ b) = b.
Proof.
  unfold drop, len. rewrite Nat2Z.id.
  rewrite skipn_app, Nat.sub_diag, skipn_all. reflexivity.
Qed.

Lemma take_drop (n : Z) (b : bytes) : take n b ++ drop n b = b.
Proof. apply firstn_skipn. Qed.

Lemma take_short (n : Z) (b : bytes) : len b <= n -> take n b = b.
Proof. intros H. apply firstn_all2. unfold len in H. lia. Qed.

Lemma drop_short (n : Z) (b : bytes) : len b <= n -> drop n b = [].
Proof. intros H. apply skipn_all2. unfold len in H. lia. Qed.

Lemma len_app (a b : bytes) : len (a ++ b) = len a + len b.
Proof. unfold len. rewrite length_app. lia. Qed.

Lemma len_nonneg (b : bytes) : 0 <= len b.
Proof. unfold len. lia. Qed.

Lemma len_cons (x : byte) (l : bytes) : len (x :: l) = len l + 1.
Proof. unfold len. cbn [List.length]. lia. Qed.

Lemma from_bytes_fold (l : bytes) (acc : Z) :
  fold_left (fun a x => a * 256 + bv x) l acc
  = acc * 256 ^ len l + from_bytes_big l.
Proof.
  unfold from_bytes_big. revert acc.
  induction l as [|x l IH]; intros acc.
  - cbn. lia.
  - cbn [fold_left]. rewrite IH, (IH (0 * 256 + bv x)).
    rewrite len_cons, Z.pow_add_r by (pose proof (len_nonneg l); lia).
    ring.
Qed.

Lemma from_bytes_big_cons (x : byte) (l : bytes) :
  from_bytes_big (x :: l) = bv x * 256 ^ len l + from_bytes_big l.
Proof.
  unfold from_bytes_big at 1. simpl. rewrite from_bytes_fold. reflexivity.
Qed.

Lemma to_bytes_octets_length (k : nat) (n : Z) :
  List.length (to_bytes_octets k n) = k.
Proof. induction k; simpl; congruence. Qed.

Lemma from_to_bytes_octets (k : nat) (n : Z) :
  0 <= n -> from_bytes_big (to_bytes_octets k n) = n mod 256 ^ Z.of_nat k.
Proof.
  intros Hn. induction k as [|k IH].
  - simpl. rewrite Z.mod_1_r. reflexivity.
  - cbn [to_bytes_octets]. rewrite from_bytes_big_cons, IH.
    unfold len. rewrite to_bytes_octets_length.
    rewrite bv_byte_of by (apply Z.mod_pos_bound; lia).
    rewrite Z.shiftr_div_pow2 by lia.
    replace (2 ^ (8 * Z.of_nat k)) with (256 ^ Z.of_nat k)
      by (change 256 with (2 ^ 8); rewrite <- Z.pow_mul_r by lia; reflexivity).
    rewrite Nat2Z.inj_succ, Z.pow_succ_r by lia.
    assert (Hp : 0 < 256 ^ Z.of_nat k) by (apply Z.pow_pos_nonneg; lia).
    rewrite (Z.mul_comm 256), Z.rem_mul_r by lia. lia.
Qed.

Lemma bit_length_bound (n : Z) : 0 < n -> n < 2 ^ bit_length n.
Proof.
  intros Hn. unfold bit_length.
  destruct (Z.eqb_spec n 0); [lia|].
  rewrite Z.abs_eq by lia.
  apply Z.log2_spec. assumption.
Qed.

Lemma bit_length_le (n k : Z) : 0 < n -> n < 2 ^ k -> bit_length n <= k.
Proof.
  intros Hn Hk. unfold bit_length.
  destruct (Z.eqb_spec n 0); [lia|].
  rewrite Z.abs_eq by lia.
  assert (0 <= k) by (destruct (Z.lt_ge_cases k 0); [rewrite Z.pow_neg_r in Hk; lia|lia]).
  assert (Z.log2 n < k) by (apply Z.log2_lt_pow2; lia). lia.
Qed.

Lemma encode_len_short (n : Z) :
  0 <= n < 0x80 -> _encode_len n = Ok [byte_of n].
Proof.
  intros H. unfold _encode_len.
  destruct (Z.ltb_spec n 0x80); [|lia].
  rewrite mk_byte_ok by lia. reflexivity.
Qed.

Lemma encode_len_long (n : Z) :
  0x80 <= n < 2 ^ 1016 ->
  let k := (bit_length n + 7) / 8 in
  1 <= k < 0x80 /\ n < 256 ^ k /\
  _encode_len n = Ok (byte_of (k + 0x80) :: to_bytes_octets (Z.to_nat k) n).
Proof.
  intros [Hlo Hhi] k.
  assert (Hbl : bit_length n <= 1016) by (apply bit_length_le; lia).
  assert (Hbl8 : 8 <= bit_length n).
  { destruct (Z.lt_ge_cases (bit_length n) 8) as [Hlt|]; [|assumption].
    pose proof (bit_length_bound n ltac:(lia)) as Hb.
    assert (2 ^ bit_length n <= 2 ^ 7) by (apply Z.pow_le_mono_r; lia).
    change (2 ^ 7) with 128 in *. lia. }
  assert (Hk : 1 <= k < 0x80).
  { unfold k. split.
    - apply Z.div_le_lower_bound; lia.
    - apply Z.div_lt_upper_bound; lia. }
  assert (Hfit : n < 2 ^ (8 * k)).
  { apply Z.lt_le_trans with (2 ^ bit_length n); [apply bit_length_bound; lia|].
    apply Z.pow_le_mono_r; [lia|].
    unfold k. pose proof (Z.mod_pos_bound (bit_length n + 7) 8 ltac:(lia)).
    pose proof (Z.div_mod (bit_length n + 7) 8 ltac:(lia)). lia. }
  split; [assumption|]. split.
  { change 256 with (2 ^ 8). rewrite <- Z.pow_mul_r by lia. assumption. }
  unfold _encode_len. fold k.
  destruct (Z.ltb_spec n 0x80); [lia|].
  destruct (Z.ltb_spec k 0x80); [|lia]. cbn [py_assert bind].
  rewrite lor_0x80_small by lia.
  rewrite mk_byte_ok by lia. cbn [bind].
  unfold to_bytes_big.
  destruct (Z.ltb_spec n 0); [lia|].
  destruct (Z.leb_spec (2 ^ (8 * k)) n); [lia|]. reflexivity.
Qed.

Lemma encode_len_total (n : Z) :
  0 <= n < 2 ^ 1016 -> exists e, _encode_len n = Ok e.
Proof.
  intros H. destruct (Z.lt_ge_cases n 0x80).
  - eexists. apply encode_len_short. lia.
  - destruct (encode_len_long n) as (_ & _ & E); [lia|]. eexists. exact E.
Qed.

Lemma take_succ_cons (n : Z) (x : byte) (l : bytes) :
  0 <= n -> take (1 + n) (x :: l) = x :: take n l.
Proof.
  intros H. unfold take. replace (Z.to_nat (1 + n)) with (S (Z.to_nat n)) by lia.
  reflexivity.
Qed.

Lemma drop_succ_cons (n : Z) (x : byte) (l : bytes) :
  0 <= n -> drop (1 + n) (x :: l) = drop n l.
Proof.
  intros H. unfold drop. replace (Z.to_nat (1 + n)) with (S (Z.to_nat n)) by lia.
  reflexivity.
Qed.

Lemma drop_1_cons (x : byte) (l : bytes) : drop 1 (x :: l) = l.
Proof. reflexivity. Qed.

Lemma take_1_cons (x : byte) (l : bytes) : take 1 (x :: l) = [x].
Proof. reflexivity. Qed.

Lemma decode_len_short_form (i0 : byte) (rest : bytes) :
  bv i0 <= 0x80 -> _decode_len (i0 :: rest) = Ok (bv i0, [i0], rest).
Proof.
  intros H. cbn [_decode_len].
  destruct (Z.ltb_spec 0x80 (bv i0)); [lia|]. reflexivity.
Qed.

Lemma decode_len_long_form (i0 : byte) (v rest : bytes) :
  0x80 < bv i0 -> len v = Z.land (bv i0) 0x7F ->
  _decode_len (i0 :: v ++ rest) = Ok (from_bytes_big v, i0 :: v, rest).
Proof.
  intros Hhi Hlen. cbn [_decode_len].
  destruct (Z.ltb_spec 0x80 (bv i0)); [|lia].
  rewrite <- Hlen, drop_1_cons.
  rewrite take_succ_cons, drop_succ_cons by apply len_nonneg.
  rewrite take_app_exact, drop_app_exact. reflexivity.
Qed.

Lemma decode_encode_len (n : Z) (e rest : bytes) :
  0 <= n -> _encode_len n = Ok e ->
  _decode_len (e ++ rest) = Ok (n, e, rest).
Proof.
  intros Hn He. destruct (Z.lt_ge_cases n 0x80) as [Hs|Hl].
  - rewrite encode_len_short in He by lia. injection He as <-.
    cbn [app]. rewrite decode_len_short_form; rewrite bv_byte_of by lia; [reflexivity|lia].
  - assert (Hhi : n < 2 ^ 1016).
    { unfold _encode_len in He.
      destruct (Z.ltb_spec n 0x80); [lia|].
      destruct (Z.ltb_spec ((bit_length n + 7) / 8) 0x80) as [Hk|]; [|discriminate].
      apply Z.lt_le_trans with (2 ^ bit_length n); [apply bit_length_bound; lia|].
      apply Z.pow_le_mono_r; [lia|].
      pose proof (Z.mod_pos_bound (bit_length n + 7) 8 ltac:(lia)).
      pose proof (Z.div_mod (bit_length n + 7) 8 ltac:(lia)). lia. }
    destruct (encode_len_long n) as (Hk & Hfit & E); [lia|].
    rewrite E in He. injection He as <-.
    set (k := (bit_length n + 7) / 8) in *.
    assert (Hlen : len (to_bytes_octets (Z.to_nat k) n) = k)
      by (unfold len; rewrite to_bytes_octets_length; lia).
    cbn [app]. rewrite decode_len_long_form.
    + rewrite from_to_bytes_octets, Z2Nat.id, Z.mod_small by lia. reflexivity.
    + rewrite bv_byte_of by lia. lia.
    + rewrite bv_byte_of, land_0x7F by lia. rewrite Hlen.
      change 0x80 with (1 * 128). rewrite Z.mod_add, Z.mod_small by lia. reflexivity.
Qed.

(** *** The base-128 codec *)

Lemma encode_int_loop_acc (fuel : nat) (n : Z) (acc : bytes) :
  encode_int_loop fuel n acc = acc ++ encode_int_loop fuel n [].
Proof.
  revert n acc. induction fuel as [|fuel IH]; intros n acc; cbn [encode_int_loop].
  - symmetry. apply app_nil_r.
  - destruct (0 <? n); [|symmetry; apply app_nil_r].
    rewrite IH, (IH _ ([] ++ _)). cbn [app]. rewrite <- app_assoc. reflexivity.
Qed.

Lemma encode_int_loop_step (fuel : nat) (n : Z) :
  0 < n ->
  encode_int_loop (S fuel) n []
  = byte_of (n mod 128 + 128) :: encode_int_loop fuel (n / 128) [].
Proof.
  intros Hn. cbn [encode_int_loop].
  destruct (Z.ltb_spec 0 n); [|lia].
  rewrite encode_int_loop_acc. cbn [app].
  rewrite land_0x7F, lor_0x80_small by (apply Z.mod_pos_bound; lia).
  rewrite Z.shiftr_div_pow2 by lia. reflexivity.
Qed.

(** The iteration budget is never the reason the loop stops. *)
Lemma encode_int_loop_fuel (fuel extra : nat) (n : Z) (acc : bytes) :
  n < 2 ^ Z.of_nat fuel ->
  encode_int_loop (fuel + extra) n acc = encode_int_loop fuel n acc.
Proof.
  revert n acc. induction fuel as [|fuel IH]; intros n acc Hn.
  - cbn in Hn. destruct extra; cbn [Nat.add encode_int_loop]; [reflexivity|].
    destruct (Z.ltb_spec 0 n); [lia|reflexivity].
  - cbn [Nat.add encode_int_loop]. destruct (Z.ltb_spec 0 n); [|reflexivity].
    apply IH. rewrite Z.shiftr_div_pow2 by lia.
    rewrite Nat2Z.inj_succ, Z.pow_succ_r in Hn by lia.
    apply Z.div_lt_upper_bound; [lia|].
    change (2 ^ 7) with 128. nia.
Qed.

Lemma decode_int_loop_marked (m x : Z) (tl : bytes) :
  0 <= m -> 0 <= x < 128 ->
  decode_int_loop m (byte_of (x + 128) :: tl) = decode_int_loop (m * 128 + x) tl.
Proof.
  intros Hm Hx. cbn [decode_int_loop].
  rewrite bv_byte_of by lia.
  rewrite land_0x80_marked by lia. cbn [Z.eqb].
  rewrite land_0x7F.
  replace ((x + 128) mod 128) with x
    by (change 128 with (1 * 128) at 1; rewrite Z.mod_add, Z.mod_small by lia; reflexivity).
  rewrite Z.shiftl_mul_pow2 by lia. change (2 ^ 7) with 128.
  change 128 with (2 ^ 7) at 1. rewrite lor_shifted_low by (change (2 ^ 7) with 128; lia).
  reflexivity.
Qed.

Lemma decode_int_loop_last (m x : Z) (tl : bytes) :
  0 <= m -> 0 <= x < 128 ->
  decode_int_loop m (byte_of x :: tl) = Ok (m * 128 + x, tl).
Proof.
  intros Hm Hx. cbn [decode_int_loop].
  rewrite bv_byte_of by lia.
  rewrite land_0x80_small by lia. cbn [Z.eqb].
  rewrite land_0x7F, Z.mod_small by lia.
  rewrite Z.shiftl_mul_pow2 by lia.
  rewrite lor_shifted_low by (change (2 ^ 7) with 128; lia).
  reflexivity.
Qed.

Lemma decode_marked_septets (fuel : nat) (n : Z) (tl : bytes) :
  0 <= n < 2 ^ Z.of_nat fuel ->
  decode_int_loop 0 (rev (encode_int_loop fuel n []) ++ tl) = decode_int_loop n tl.
Proof.
  revert n tl. induction fuel as [|fuel IH]; intros n tl Hn.
  - cbn in Hn. assert (n = 0) by lia. subst. reflexivity.
  - destruct (Z.eq_dec n 0) as [->|Hne]; [reflexivity|].
    rewrite encode_int_loop_step by lia.
    cbn [rev]. rewrite <- app_assoc. cbn [app].
    rewrite Nat2Z.inj_succ, Z.pow_succ_r in Hn by lia.
    rewrite IH.
    2:{ split; [apply Z.div_pos; lia|].
        apply Z.div_lt_upper_bound; lia. }
    rewrite decode_int_loop_marked.
    + f_equal. pose proof (Z.div_mod n 128 ltac:(lia)). lia.
    + apply Z.div_pos; lia.
    + apply Z.mod_pos_bound; lia.
Qed.

Lemma decode_int_is_loop (b : bytes) : _decode_int b = decode_int_loop 0 b.
Proof.
  destruct b as [|b0 b']; [reflexivity|].
  cbn [_decode_int decode_int_loop].
  destruct (Z.ltb_spec (bv b0) 0x80) as [Hlt|Hge]; [|reflexivity].
  pose proof (bv_range b0).
  rewrite land_0x80_small by lia. cbn [Z.eqb].
  rewrite land_0x7F, Z.mod_small by lia. reflexivity.
Qed.

Lemma encode_int_small (n : Z) :
  0 <= n < 0x80 -> _encode_int n = Ok [byte_of n].
Proof.
  intros H. unfold _encode_int.
  destruct (Z.ltb_spec n 0x80); [|lia].
  rewrite mk_byte_ok by lia. reflexivity.
Qed.

Lemma encode_int_large (n : Z) :
  0x80 <= n ->
  _encode_int n
  = Ok (rev (encode_int_loop (Z.to_nat (bit_length n) - 1) (n / 128) [])
        ++ [byte_of (n mod 128)]).
Proof.
  intros H. unfold _encode_int.
  destruct (Z.ltb_spec n 0x80); [lia|].
  assert (Hbl : 1 <= bit_length n).
  { unfold bit_length. destruct (Z.eqb_spec n 0); [lia|].
    pose proof (Z.log2_nonneg (Z.abs n)). lia. }
  replace (Z.to_nat (bit_length n)) with (S (Z.to_nat (bit_length n) - 1)) at 1 by lia.
  rewrite encode_int_loop_step by lia.
  rewrite bv_byte_of by (pose proof (Z.mod_pos_bound n 128 ltac:(lia)); lia).
  rewrite land_0x7F.
  replace ((n mod 128 + 128) mod 128) with (n mod 128).
  2:{ change 128 with (1 * 128) at 3. rewrite Z.mod_add by lia.
      rewrite Z.mod_mod by lia. reflexivity. }
  reflexivity.
Qed.

Lemma encode_int_total (n : Z) :
  0 <= n -> exists x e, _encode_int n = Ok (x :: e).
Proof.
  intros Hn. destruct (Z.lt_ge_cases n 0x80).
  - exists (byte_of n), []. apply encode_int_small. lia.
  - rewrite encode_int_large by assumption.
    destruct (rev _) as [|x e]; cbn [app]; eauto.
Qed.

Lemma decode_encode_int (n : Z) (e rest : bytes) :
  0 <= n -> _encode_int n = Ok e -> _decode_int (e ++ rest) = Ok (n, rest).
Proof.
  intros Hn He. rewrite decode_int_is_loop.
  destruct (Z.lt_ge_cases n 0x80) as [Hs|Hl].
  - rewrite encode_int_small in He by lia. injection He as <-.
    cbn [app]. rewrite decode_int_loop_last by lia. reflexivity.
  - rewrite encode_int_large in He by assumption. injection He as <-.
    rewrite <- app_assoc. cbn [app].
    rewrite decode_marked_septets.
    + rewrite decode_int_loop_last.
      * f_equal. f_equal. pose proof (Z.div_mod n 128 ltac:(lia)). lia.
      * apply Z.div_pos; lia.
      * apply Z.mod_pos_bound; lia.
    + split; [apply Z.div_pos; lia|].
      pose proof (bit_length_bound n ltac:(lia)) as Hb.
      assert (Hbl : 8 <= bit_length n).
      { destruct (Z.lt_ge_cases (bit_length n) 8) as [Hlt|]; [|assumption].
        assert (2 ^ bit_length n <= 2 ^ 7) by (apply Z.pow_le_mono_r; lia).
        change (2 ^ 7) with 128 in *. lia. }
      apply Z.div_lt_upper_bound; [lia|].
      replace (Z.of_nat (Z.to_nat (bit_length n) - 1)) with (bit_length n - 1) by lia.
      replace (bit_length n) with (bit_length n - 1 + 1) in Hb by lia.
      rewrite Z.pow_add_r in Hb by lia. lia.
Qed.

(** *** Complete elements *)

Lemma bind_ok {A B : Type} (m : result A) (k : A -> result B) (b : B) :
  bind m k = Ok b -> exists a, m = Ok a /\ k a = Ok b.
Proof. destruct m as [a|e]; cbn; [eauto|discriminate]. Qed.

Lemma assert_ok (c : bool) (u : unit) : py_assert c = Ok u -> c = true.
Proof. destruct c; [reflexivity|discriminate]. Qed.

Lemma encoded_element_complete (tag : byte) (lb v : bytes) :
  _encode_len (len v) = Ok lb -> complete_element tag (tag :: lb ++ v).
Proof.
  intros E. exists lb, v. split; [reflexivity|].
  intros rest. apply decode_encode_len; [apply len_nonneg|assumption].
Qed.

Lemma enter_complete (tag : byte) (lb v rest : bytes) :
  (forall r, _decode_len (lb ++ v ++ r) = Ok (len v, lb, v ++ r)) ->
  enter (bv tag) (tag :: lb ++ v ++ rest) = Ok (v, rest).
Proof.
  intros H. cbn [enter]. rewrite Z.eqb_refl. cbn [py_assert bind].
  rewrite drop_1_cons, H. cbn [bind].
  rewrite take_app_exact, drop_app_exact. reflexivity.
Qed.

Lemma dumb_decode_complete (tag : byte) (e rest : bytes) :
  complete_element tag e -> _dumb_decode (e ++ rest) = Ok ((tag, e), rest).
Proof.
  intros (lb & v & -> & H). cbn [app _dumb_decode].
  rewrite drop_1_cons, <- app_assoc, H. cbn [bind].
  rewrite take_app_exact, drop_app_exact. reflexivity.
Qed.

Lemma complete_element_nonempty (tag : byte) (e : bytes) :
  complete_element tag e -> exists tl, e = tag :: tl.
Proof. intros (lb & v & -> & _). eauto. Qed.

(** *** ObjectID *)

Lemma encode_arcs_total (arcs : list Z) :
  Forall (fun n => 0 <= n) arcs -> exists tl, ObjectID.encode_arcs arcs = Ok tl.
Proof.
  induction 1 as [|n arcs Hn _ (tl & IH)]; cbn [ObjectID.encode_arcs].
  - eauto.
  - destruct (encode_int_total n Hn) as (x & e & ->). rewrite IH. cbn. eauto.
Qed.

Lemma decode_encode_arcs (arcs : list Z) :
  Forall (fun n => 0 <= n) arcs ->
  forall tl, ObjectID.encode_arcs arcs = Ok tl ->
  forall fuel, (List.length tl <= fuel)%nat ->
  ObjectID.decode_arcs fuel tl = Ok arcs.
Proof.
  induction 1 as [|n arcs Hn _ IH]; intros tl E fuel Hf.
  - injection E as <-. destruct fuel; reflexivity.
  - cbn [ObjectID.encode_arcs] in E.
    apply bind_ok in E as (e & Ee & E). apply bind_ok in E as (r & Er & E).
    injection E as <-.
    destruct (encode_int_total n Hn) as (x & e' & Ee').
    rewrite Ee in Ee'. injection Ee' as ->.
    rewrite length_app in Hf. cbn [List.length] in Hf.
    destruct fuel as [|fuel]; [lia|].
    cbn [app ObjectID.decode_arcs].
    change (x :: e' ++ r) with ((x :: e') ++ r).
    rewrite (decode_encode_int n (x :: e') r Hn Ee). cbn [bind].
    rewrite (IH r Er fuel) by lia. reflexivity.
Qed.

Lemma oid_content_encodable (o : ObjectID.t) :
  encodable_arcs (ObjectID.oid o) ->
  exists a b rest tl,
    ObjectID.oid o = a :: b :: rest
    /\ ObjectID.encode_arcs rest = Ok tl
    /\ ObjectID.content o = Ok (byte_of (40 * a + b) :: tl).
Proof.
  unfold encodable_arcs, ObjectID.content.
  destruct (ObjectID.oid o) as [|a [|b rest]]; try contradiction.
  intros (Ha & Hb & Hab & Hc & Hrest).
  destruct (encode_arcs_total rest Hrest) as (tl & Etl).
  exists a, b, rest, tl. rewrite mk_byte_ok by lia. rewrite Etl. cbn. auto.
Qed.

Lemma first_octet_arcs (a b : Z) :
  0 <= a <= 2 -> 0 <= b -> (a < 2 -> b < 40) -> 40 * a + b <= 255 ->
  Z.min ((40 * a + b) / 40) 2 = a
  /\ 40 * a + b - Z.min ((40 * a + b) / 40) 2 * 40 = b.
Proof.
  intros Ha Hb Hab Hc.
  assert (E : Z.min ((40 * a + b) / 40) 2 = a).
  { rewrite (Z.mul_comm 40 a), Z.div_add_l by lia.
    destruct (Z.eq_dec a 2) as [->|].
    - pose proof (Z.div_pos b 40 ltac:(lia) ltac:(lia)). lia.
    - rewrite Z.div_small by lia. lia. }
  split; [assumption|]. rewrite E. lia.
Qed.

Lemma oid_roundtrip (o : ObjectID.t) :
  encodable_oid o ->
  exists d,
    ObjectID.as_der o = Ok d
    /\ complete_element x06 d
    /\ forall trailing, ObjectID.from_der (d ++ trailing) = Ok (anonymous o, trailing).
Proof.
  intros [Harcs Hfits].
  destruct (oid_content_encodable o Harcs) as (a & b & rest & tl & Eo & Etl & Ec).
  unfold encodable_arcs in Harcs. rewrite Eo in Harcs.
  destruct Harcs as (Ha & Hb & Hab & Hc & Hrest).
  rewrite Ec in Hfits. cbn [fits] in Hfits.
  set (buf := byte_of (40 * a + b) :: tl) in *.
  destruct (encode_len_total (len buf)) as (prefix & Ep);
    [split; [apply len_nonneg|assumption]|].
  exists (x06 :: prefix ++ buf).
  split; [unfold ObjectID.as_der; rewrite Ec; cbn [bind]; rewrite Ep; reflexivity|].
  pose proof (encoded_element_complete x06 prefix buf Ep) as Hce.
  split; [assumption|].
  intros trailing. unfold ObjectID.from_der.
  destruct Hce as (lb & v & Hev & Hdec).
  cbn [app]. rewrite <- app_assoc.
  change 0x06 with (bv x06).
  rewrite (enter_complete x06 prefix buf trailing)
    by (intros r; apply decode_encode_len; [apply len_nonneg|assumption]).
  cbn [bind]. unfold buf at 1.
  rewrite (decode_encode_arcs rest Hrest tl Etl) by lia. cbn [bind].
  rewrite bv_byte_of by lia.
  destruct (first_octet_arcs a b Ha Hb Hab Hc) as [-> ->].
  unfold anonymous. rewrite Eo. reflexivity.
Qed.

(** *** Lists of identifiers and OpenSSLCertAux *)

Lemma arcs_eqb_refl (arcs : list Z) : ObjectID.arcs_eqb arcs arcs = true.
Proof.
  induction arcs as [|x arcs IH]; cbn [ObjectID.arcs_eqb]; [reflexivity|].
  rewrite Z.eqb_refl, IH. reflexivity.
Qed.

Lemma arcs_eqb_eq (a b : list Z) : ObjectID.arcs_eqb a b = true <-> a = b.
Proof.
  split; [|intros ->; apply arcs_eqb_refl].
  revert b. induction a as [|x a IH]; intros [|y b]; cbn [ObjectID.arcs_eqb];
    try discriminate; [reflexivity|].
  intros H. apply andb_prop in H as [Hxy Hab].
  apply Z.eqb_eq in Hxy. rewrite (IH b Hab), Hxy. reflexivity.
Qed.

Lemma oids_eqb_anonymous (l : list ObjectID.t) :
  OpenSSLCertAux.oids_eqb (map anonymous l) l = true.
Proof.
  induction l as [|o l IH]; cbn [map OpenSSLCertAux.oids_eqb]; [reflexivity|].
  rewrite IH. unfold ObjectID.eqb, anonymous. cbn [ObjectID.oid].
  rewrite arcs_eqb_refl. reflexivity.
Qed.

Lemma oids_roundtrip (l : list ObjectID.t) :
  Forall encodable_oid l ->
  exists buf,
    extend_oids l = Ok buf
    /\ forall fuel, (List.length buf <= fuel)%nat ->
         OpenSSLCertAux.decode_oids fuel buf = Ok (map anonymous l).
Proof.
  induction 1 as [|o l Ho _ (r & Er & IH)].
  - exists []. split; [reflexivity|]. intros [|fuel] _; reflexivity.
  - destruct (oid_roundtrip o Ho) as (d & Ed & Hce & Hdec).
    exists (d ++ r). cbn [extend_oids]. rewrite Ed, Er. cbn [bind].
    split; [reflexivity|]. intros fuel Hf.
    destruct (complete_element_nonempty _ _ Hce) as (tl & ->).
    rewrite length_app in Hf. cbn [List.length] in Hf.
    destruct fuel as [|fuel]; [lia|].
    cbn [app OpenSSLCertAux.decode_oids].
    change (x06 :: tl ++ r) with ((x06 :: tl) ++ r).
    rewrite Hdec. cbn [bind]. rewrite IH by lia. reflexivity.
Qed.

Lemma encode_oids_shape (l : list ObjectID.t) (tag : byte) :
  encodable_oids l ->
  exists prefix buf,
    extend_oids l = Ok buf
    /\ _encode_len (len buf) = Ok prefix
    /\ OpenSSLCertAux.encode_oids l tag = Ok (tag :: prefix ++ buf)
    /\ OpenSSLCertAux.decode_oids (List.length buf) buf = Ok (map anonymous l).
Proof.
  intros [Hl Hfits].
  destruct (oids_roundtrip l Hl) as (buf & Ebuf & Hdec).
  rewrite Ebuf in Hfits. cbn [fits] in Hfits.
  destruct (encode_len_total (len buf)) as (prefix & Ep);
    [split; [apply len_nonneg|assumption]|].
  exists prefix, buf. unfold OpenSSLCertAux.encode_oids.
  rewrite Ebuf. cbn [bind]. rewrite Ep. cbn [bind].
  repeat split; auto.
Qed.

Lemma aux_roundtrip (aux : OpenSSLCertAux.t) :
  encodable_aux aux ->
  exists d,
    OpenSSLCertAux.as_der aux = Ok d
    /\ forall rem,
         OpenSSLCertAux.from_der (d ++ rem)
         = Ok (OpenSSLCertAux.mk (map anonymous (OpenSSLCertAux.trust aux))
                                 (map anonymous (OpenSSLCertAux.reject aux)), rem).
Proof.
  intros (Ht & Hr & Hfits).
  destruct (encode_oids_shape _ x30 Ht) as (tp & tbuf & Etb & Etp & Et & Htdec).
  assert (Hrej : exists rder,
             (match OpenSSLCertAux.reject aux with
              | [] => Ok []
              | _ :: _ => OpenSSLCertAux.encode_oids (OpenSSLCertAux.reject aux) xa0
              end) = Ok rder
             /\ (match rder with
                 | b0 :: _ =>
                     if bv b0 =? 0xA0 then
                       '(reject_len, _, b) <- _decode_len (drop 1 rder) ;;
                       let reject_b := take reject_len b in
                       OpenSSLCertAux.decode_oids (List.length reject_b) reject_b
                     else Ok []
                 | [] => Ok []
                 end) = Ok (map anonymous (OpenSSLCertAux.reject aux))).
  { destruct (OpenSSLCertAux.reject aux) as [|r0 rl] eqn:Erej.
    - exists []. split; reflexivity.
    - destruct (encode_oids_shape _ xa0 Hr) as (rp & rbuf & Erb & Erp & Er & Hrdec).
      exists (xa0 :: rp ++ rbuf). split; [assumption|].
      change (bv xa0 =? 0xA0) with true. cbv iota.
      rewrite drop_1_cons.
      pose proof (decode_encode_len (len rbuf) rp (rbuf ++ []) (len_nonneg _) Erp) as Hd.
      rewrite app_nil_r in Hd.
      rewrite Hd. cbn [bind].
      rewrite take_short by lia. assumption. }
  destruct Hrej as (rder & Erder & Hrdec).
  assert (Ec : OpenSSLCertAux.content aux = Ok ((x30 :: tp ++ tbuf) ++ rder)).
  { unfold OpenSSLCertAux.content. rewrite Et. cbn [bind]. rewrite Erder. reflexivity. }
  rewrite Ec in Hfits. cbn [fits] in Hfits.
  set (buf := (x30 :: tp ++ tbuf) ++ rder) in *.
  destruct (encode_len_total (len buf)) as (prefix & Ep);
    [split; [apply len_nonneg|assumption]|].
  exists (x30 :: prefix ++ buf). split.
  { unfold OpenSSLCertAux.as_der. rewrite Ec. cbn [bind]. rewrite Ep. reflexivity. }
  intros rem. unfold OpenSSLCertAux.from_der.
  cbn [app]. rewrite <- app_assoc.
  change 0x30 with (bv x30).
  rewrite (enter_complete x30 prefix buf rem)
    by (intros r; apply decode_encode_len; [apply len_nonneg|assumption]).
  cbn [bind]. unfold buf. cbn [app]. rewrite <- app_assoc.
  rewrite (enter_complete x30 tp tbuf rder)
    by (intros r; apply decode_encode_len; [apply len_nonneg|assumption]).
  cbn [bind]. rewrite Htdec. cbn [bind].
  cbv zeta in Hrdec. rewrite Hrdec. reflexivity.
Qed.

(** *** Certificate framing *)

Lemma certificate_framing (cert_der : bytes) (c : Certificate.t) :
  well_formed_certificate cert_der c ->
  forall extra, Certificate.from_der (cert_der ++ extra) = Ok (c, extra).
Proof.
  intros [(lb & v & -> & Hdec) Hacc] extra.
  unfold Certificate.from_der in *.
  cbn [app]. rewrite <- app_assoc.
  change 0x30 with (bv x30) at 1.
  rewrite (enter_complete x30 lb v extra Hdec). cbn [bind].
  replace (x30 :: lb ++ v) with (x30 :: lb ++ v ++ []) in Hacc
    by (rewrite app_nil_r; reflexivity).
  change 0x30 with (bv x30) in Hacc at 1.
  rewrite (enter_complete x30 lb v [] Hdec) in Hacc. cbn [bind] in Hacc.
  destruct (TBSCertificate.from_der v) as [[tbs b1]|]; [|discriminate Hacc].
  cbn [bind] in *.
  destruct (_dumb_decode b1) as [[[tag1 sa] b2]|]; [|discriminate Hacc].
  cbn [bind] in *.
  destruct (py_assert (bv tag1 =? 0x30)); [|discriminate Hacc].
  cbn [bind] in *.
  destruct (_dumb_decode b2) as [[[tag2 sv] b3]|]; [|discriminate Hacc].
  cbn [bind] in *.
  destruct (py_assert (bv tag2 =? 0x03)); [|discriminate Hacc].
  cbn [bind] in *.
  destruct (py_assert _); [|discriminate Hacc].
  cbn [bind] in *. injection Hacc as <-. reflexivity.
Qed.

(** *** The walker accounts for every octet it is given *)

Lemma from_bytes_big_nonneg (l : bytes) : 0 <= from_bytes_big l.
Proof.
  unfold from_bytes_big.
  assert (G : forall acc, 0 <= acc -> 0 <= fold_left (fun a x => a * 256 + bv x) l acc).
  { induction l as [|x l IH]; intros acc Hacc; cbn [fold_left]; [assumption|].
    apply IH. pose proof (bv_range x). lia. }
  apply G. lia.
Qed.

Lemma decode_len_split (i : bytes) (n : Z) (lb buf : bytes) :
  _decode_len i = Ok (n, lb, buf) -> i = lb ++ buf /\ 0 <= n.
Proof.
  destruct i as [|i0 i']; [discriminate|]. cbn [_decode_len].
  destruct (0x80 <? bv i0); intros H; injection H as <- <- <-.
  - split; [symmetry; apply take_drop|apply from_bytes_big_nonneg].
  - split; [reflexivity|]. pose proof (bv_range i0). lia.
Qed.

Lemma dumb_decode_split (i : bytes) (tag : byte) (e rest : bytes) :
  _dumb_decode i = Ok ((tag, e), rest) -> i = e ++ rest.
Proof.
  destruct i as [|t i']; [discriminate|]. cbn [_dumb_decode].
  rewrite drop_1_cons, take_1_cons. intros H.
  apply bind_ok in H as ([[n lb] buf] & Hd & H). injection H as <- <- <-.
  apply decode_len_split in Hd as [-> _].
  cbn [app]. rewrite <- app_assoc, take_drop. reflexivity.
Qed.

Lemma dumb_decode_total (i : bytes) :
  (exists r, _dumb_decode i = Ok r) <-> (2 <= List.length i)%nat.
Proof.
  destruct i as [|tag [|l0 i']]; cbn [List.length].
  - split; [intros [r H]; discriminate|lia].
  - split; [intros [r H]; discriminate|lia].
  - split; [lia|intros _]. cbn [_dumb_decode]. rewrite drop_1_cons.
    cbn [_decode_len]. destruct (0x80 <? bv l0); cbn [bind]; eauto.
Qed.

(** *** TBSCertificate *)

Lemma expect_split (want : Z) (b e r : bytes) :
  TBSCertificate.expect want b = Ok (e, r) -> b = e ++ r.
Proof.
  unfold TBSCertificate.expect. intros H.
  apply bind_ok in H as ([[tag d] b'] & Hd & H).
  apply bind_ok in H as (u & _ & H). injection H as <- <-.
  eapply dumb_decode_split; eassumption.
Qed.

Lemma version_and_serial_split (b : bytes) (v : option bytes) (s r : bytes) :
  TBSCertificate.version_and_serial b = Ok (v, s, r) -> b = span v ++ s ++ r.
Proof.
  unfold TBSCertificate.version_and_serial. intros H.
  apply bind_ok in H as ([[tag d] b'] & Hd & H).
  apply dumb_decode_split in Hd as ->.
  destruct (bv tag =? 0xA0).
  - apply bind_ok in H as ([s' r'] & He & H). injection H as <- <- <-.
    apply expect_split in He as ->. reflexivity.
  - apply bind_ok in H as (u & _ & H). injection H as <- <- <-. reflexivity.
Qed.

Lemma advance_split (c c' : TBSCertificate.cursor) :
  TBSCertificate.advance c = Ok c' ->
  (snd c = [] /\ c' = c) \/ (snd c <> [] /\ snd c = snd (fst c') ++ snd c').
Proof.
  unfold TBSCertificate.advance. destruct c as [[tag e] r]. cbn [snd fst].
  destruct r as [|x r].
  - intros H. injection H as <-. left. auto.
  - intros H. right. split; [discriminate|].
    destruct c' as [[tag' e'] r']. cbn [snd fst].
    eapply dumb_decode_split; eassumption.
Qed.

Lemma optional_field_cases (want : Z) (c c' : TBSCertificate.cursor) (f : option bytes) :
  TBSCertificate.optional_field want c = Ok (f, c') ->
  (bv (fst (fst c)) <> want /\ f = None /\ c' = c)
  \/ (bv (fst (fst c)) = want /\ f = Some (snd (fst c))
      /\ TBSCertificate.advance c = Ok c').
Proof.
  unfold TBSCertificate.optional_field.
  destruct (Z.eqb_spec (bv (fst (fst c))) want) as [E|NE]; intros H.
  - apply bind_ok in H as (c1 & Ha & H). injection H as <- <-. right. auto.
  - injection H as <- <-. left. auto.
Qed.

(** Whatever [optional_fields] captures is a prefix of what it was given. *)
Lemma optional_fields_prefix (b : bytes) (iu su ex : option bytes) :
  TBSCertificate.optional_fields b = Ok (iu, su, ex) ->
  exists dropped, b = span iu ++ span su ++ span ex ++ dropped.
Proof.
  unfold TBSCertificate.optional_fields. destruct b as [|x b].
  { intros H. injection H as <- <- <-. exists []. reflexivity. }
  intros H. apply bind_ok in H as ([[t0 e0] r0] & Hd & H).
  apply dumb_decode_split in Hd. rewrite Hd. clear Hd.
  apply bind_ok in H as ([iu' c1] & H1 & H).
  apply bind_ok in H as ([su' c2] & H2 & H).
  apply bind_ok in H as ([ex' c3] & H3 & H).
  injection H as <- <- <-.
  apply optional_field_cases in H1, H2, H3. cbn [fst snd] in H1.
  destruct H1 as [(N1 & -> & ->)|(T1 & -> & A1)].
  - (* the first element is not the issuer identifier *)
    cbn [fst snd] in H2.
    destruct H2 as [(N2 & -> & ->)|(T2 & -> & A2)].
    + cbn [fst snd] in H3.
      destruct H3 as [(N3 & -> & ->)|(T3 & -> & A3)].
      * exists (e0 ++ r0). reflexivity.
      * exists r0. cbn [span app]. reflexivity.
    + apply advance_split in A2. cbn [fst snd] in A2.
      destruct A2 as [[-> ->]|[_ A2]].
      * cbn [fst snd] in H3.
        destruct H3 as [(N3 & -> & ->)|(T3 & _ & _)]; [|lia].
        exists []. cbn [span app]. rewrite !app_nil_r. reflexivity.
      * destruct c2 as [[t2 e2] r2]. cbn [fst snd] in *. subst r0.
        destruct H3 as [(N3 & -> & ->)|(T3 & -> & A3)].
        -- exists (e2 ++ r2). reflexivity.
        -- exists r2. reflexivity.
  - apply advance_split in A1. cbn [fst snd] in A1.
    destruct A1 as [[-> ->]|[_ A1]].
    + cbn [fst snd] in H2.
      destruct H2 as [(N2 & -> & ->)|(T2 & _ & _)]; [|lia].
      cbn [fst snd] in H3.
      destruct H3 as [(N3 & -> & ->)|(T3 & _ & _)]; [|lia].
      exists []. cbn [span app]. rewrite !app_nil_r. reflexivity.
    + destruct c1 as [[t1 e1] r1]. cbn [fst snd] in *. subst r0.
      destruct H2 as [(N2 & -> & ->)|(T2 & -> & A2)].
      * cbn [fst snd] in H3.
        destruct H3 as [(N3 & -> & ->)|(T3 & -> & A3)].
        -- exists (e1 ++ r1). reflexivity.
        -- exists r1. reflexivity.
      * apply advance_split in A2. cbn [fst snd] in A2.
        destruct A2 as [[-> ->]|[_ A2]].
        -- cbn [fst snd] in H3.
           destruct H3 as [(N3 & -> & ->)|(T3 & _ & _)]; [|lia].
           exists []. cbn [span app]. rewrite !app_nil_r. reflexivity.
        -- destruct c2 as [[t2 e2] r2]. cbn [fst snd] in *. subst r1.
           destruct H3 as [(N3 & -> & ->)|(T3 & -> & A3)].
           ++ exists (e2 ++ r2). reflexivity.
           ++ exists r2. reflexivity.
Qed.

Lemma advance_empty (tag : byte) (e : bytes) :
  TBSCertificate.advance ((tag, e), []) = Ok ((tag, e), []).
Proof. reflexivity. Qed.

Lemma advance_complete (tag tag' : byte) (e e' rest : bytes) :
  complete_element tag' e' ->
  TBSCertificate.advance ((tag, e), e' ++ rest) = Ok ((tag', e'), rest).
Proof.
  intros H. unfold TBSCertificate.advance. cbn [snd].
  destruct (complete_element_nonempty _ _ H) as (tl & ->).
  cbn [app]. change (tag' :: tl ++ rest) with ((tag' :: tl) ++ rest).
  apply dumb_decode_complete. assumption.
Qed.

Lemma optional_field_absent (want : Z) (tag : byte) (e r : bytes) :
  bv tag <> want ->
  TBSCertificate.optional_field want ((tag, e), r) = Ok (None, ((tag, e), r)).
Proof.
  intros H. unfold TBSCertificate.optional_field. cbn [fst snd].
  destruct (Z.eqb_spec (bv tag) want); [contradiction|reflexivity].
Qed.

Lemma optional_field_last (tag : byte) (e : bytes) :
  TBSCertificate.optional_field (bv tag) ((tag, e), [])
  = Ok (Some e, ((tag, e), [])).
Proof.
  unfold TBSCertificate.optional_field. cbn [fst snd].
  rewrite Z.eqb_refl. reflexivity.
Qed.

Lemma optional_field_next (tag tag' : byte) (e e' rest : bytes) :
  complete_element tag' e' ->
  TBSCertificate.optional_field (bv tag) ((tag, e), e' ++ rest)
  = Ok (Some e, ((tag', e'), rest)).
Proof.
  intros H. unfold TBSCertificate.optional_field. cbn [fst].
  rewrite Z.eqb_refl, (advance_complete tag tag' e e' rest H). reflexivity.
Qed.

Lemma optional_field_next_last (tag tag' : byte) (e e' : bytes) :
  complete_element tag' e' ->
  TBSCertificate.optional_field (bv tag) ((tag, e), e')
  = Ok (Some e, ((tag', e'), [])).
Proof.
  intros H. rewrite <- (app_nil_r e') at 1. apply optional_field_next. assumption.
Qed.

Lemma optional_fields_first (tag : byte) (e rest : bytes) :
  complete_element tag e ->
  TBSCertificate.optional_fields (e ++ rest)
  = ('(issuer_unique_id, c) <- TBSCertificate.optional_field 0xA1 ((tag, e), rest) ;;
     '(subject_unique_id, c) <- TBSCertificate.optional_field 0xA2 c ;;
     '(extensions, c) <- TBSCertificate.optional_field 0xA3 c ;;
     Ok (issuer_unique_id, subject_unique_id, extensions)).
Proof.
  intros H. unfold TBSCertificate.optional_fields.
  destruct (complete_element_nonempty _ _ H) as (tl & ->).
  cbn [app]. change (tag :: tl ++ rest) with ((tag :: tl) ++ rest).
  rewrite (dumb_decode_complete tag _ rest H). reflexivity.
Qed.

Lemma optional_fields_single (tag : byte) (e : bytes) :
  complete_element tag e ->
  TBSCertificate.optional_fields e
  = ('(issuer_unique_id, c) <- TBSCertificate.optional_field 0xA1 ((tag, e), []) ;;
     '(subject_unique_id, c) <- TBSCertificate.optional_field 0xA2 c ;;
     '(extensions, c) <- TBSCertificate.optional_field 0xA3 c ;;
     Ok (issuer_unique_id, subject_unique_id, extensions)).
Proof.
  intros H. rewrite <- (app_nil_r e) at 1. apply optional_fields_first. assumption.
Qed.

(** When only the optional elements follow, in order, each is captured. *)
Lemma optional_fields_recorded (iu su ex : option bytes) :
  optional_element xa1 iu -> optional_element xa2 su -> optional_element xa3 ex ->
  TBSCertificate.optional_fields (span iu ++ span su ++ span ex) = Ok (iu, su, ex).
Proof.
  assert (A12 : bv xa1 <> 0xA2) by (cbv; discriminate).
  assert (A13 : bv xa1 <> 0xA3) by (cbv; discriminate).
  assert (A21 : bv xa2 <> 0xA1) by (cbv; discriminate).
  assert (A23 : bv xa2 <> 0xA3) by (cbv; discriminate).
  assert (A31 : bv xa3 <> 0xA1) by (cbv; discriminate).
  assert (A32 : bv xa3 <> 0xA2) by (cbv; discriminate).
  destruct iu as [e1|], su as [e2|], ex as [e3|]; cbn [optional_element span];
    intros H1 H2 H3; rewrite ?app_nil_r; cbn [app].
  - rewrite (optional_fields_first xa1 e1 _ H1).
    change 0xA1 with (bv xa1). rewrite (optional_field_next xa1 xa2 e1 e2 e3 H2).
    cbn [bind]. change 0xA2 with (bv xa2).
    rewrite (optional_field_next_last xa2 xa3 e2 e3 H3).
    cbn [bind]. change 0xA3 with (bv xa3). rewrite optional_field_last. reflexivity.
  - rewrite (optional_fields_first xa1 e1 _ H1).
    change 0xA1 with (bv xa1). rewrite (optional_field_next_last xa1 xa2 e1 e2 H2).
    cbn [bind]. change 0xA2 with (bv xa2). rewrite optional_field_last.
    cbn [bind]. rewrite (optional_field_absent 0xA3 xa2) by assumption. reflexivity.
  - rewrite (optional_fields_first xa1 e1 _ H1).
    change 0xA1 with (bv xa1). rewrite (optional_field_next_last xa1 xa3 e1 e3 H3).
    cbn [bind]. rewrite (optional_field_absent 0xA2 xa3) by assumption.
    cbn [bind]. change 0xA3 with (bv xa3). rewrite optional_field_last. reflexivity.
  - rewrite (optional_fields_single xa1 e1 H1).
    change 0xA1 with (bv xa1). rewrite optional_field_last.
    cbn [bind]. rewrite (optional_field_absent 0xA2 xa1) by assumption.
    cbn [bind]. rewrite (optional_field_absent 0xA3 xa1) by assumption. reflexivity.
  - rewrite (optional_fields_first xa2 e2 _ H2).
    rewrite (optional_field_absent 0xA1 xa2) by assumption.
    cbn [bind]. change 0xA2 with (bv xa2).
    rewrite (optional_field_next_last xa2 xa3 e2 e3 H3).
    cbn [bind]. change 0xA3 with (bv xa3). rewrite optional_field_last. reflexivity.
  - rewrite (optional_fields_single xa2 e2 H2).
    rewrite (optional_field_absent 0xA1 xa2) by assumption.
    cbn [bind]. change 0xA2 with (bv xa2). rewrite optional_field_last.
    cbn [bind]. rewrite (optional_field_absent 0xA3 xa2) by assumption. reflexivity.
  - rewrite (optional_fields_single xa3 e3 H3).
    rewrite (optional_field_absent 0xA1 xa3) by assumption.
    cbn [bind]. rewrite (optional_field_absent 0xA2 xa3) by assumption.
    cbn [bind]. change 0xA3 with (bv xa3). rewrite optional_field_last. reflexivity.
  - reflexivity.
Qed.

Lemma tbs_from_der_inv (b : bytes) (t : TBSCertificate.t) (rem : bytes) :
  TBSCertificate.from_der b = Ok (t, rem) ->
  exists content tl,
    enter 0x30 b = Ok (content, rem)
    /\ content = leading_spans t ++ tl
    /\ TBSCertificate.optional_fields tl
       = Ok (TBSCertificate.issuer_unique_id t,
             TBSCertificate.subject_unique_id t,
             TBSCertificate.extensions t).
Proof.
  unfold TBSCertificate.from_der. intros H.
  apply bind_ok in H as ([content rem'] & He & H).
  apply bind_ok in H as ([[v s] b1] & Hv & H).
  apply bind_ok in H as ([sg b2] & H2 & H).
  apply bind_ok in H as ([iss b3] & H3 & H).
  apply bind_ok in H as ([val b4] & H4 & H).
  apply bind_ok in H as ([sub b5] & H5 & H).
  apply bind_ok in H as ([spki b6] & H6 & H).
  apply bind_ok in H as ([[iu su] ex] & Ho & H).
  injection H as <- <-.
  exists content, b6. split; [assumption|]. split; [|assumption].
  apply version_and_serial_split in Hv.
  apply expect_split in H2, H3, H4, H5, H6. subst.
  unfold leading_spans. cbn. rewrite <- !app_assoc. reflexivity.
Qed.

(** *** The iteration budgets are never exhausted *)

Lemma bind_raise {A B : Type} (m : result A) (k : A -> result B) (e : exn) :
  bind m k = Raise e -> m = Raise e \/ exists a, m = Ok a /\ k a = Raise e.
Proof.
  destruct m as [a|e']; cbn [bind]; intros H.
  - right. exists a. split; [reflexivity|assumption].
  - left. injection H as ->. reflexivity.
Qed.

Lemma decode_int_loop_consumes (b : bytes) :
  forall n m b', decode_int_loop n b = Ok (m, b') ->
                 (List.length b' < List.length b)%nat.
Proof.
  induction b as [|x b IH]; intros n m b'; cbn [decode_int_loop]; [discriminate|].
  destruct (Z.land (bv x) 0x80 =? 0); intros H.
  - injection H as _ <-. cbn [List.length]. lia.
  - apply IH in H. cbn [List.length]. lia.
Qed.

Lemma decode_int_loop_raises (b : bytes) :
  forall n e, decode_int_loop n b = Raise e -> e = IndexError.
Proof.
  induction b as [|x b IH]; intros n e; cbn [decode_int_loop].
  - intros H. injection H as <-. reflexivity.
  - destruct (Z.land (bv x) 0x80 =? 0); [discriminate|]. apply IH.
Qed.

Lemma decode_arcs_progress (fuel : nat) :
  forall b, (List.length b <= fuel)%nat ->
            ObjectID.decode_arcs fuel b <> Raise NoProgress.
Proof.
  induction fuel as [|fuel IH]; intros [|x b] Hf; cbn [ObjectID.decode_arcs];
    try discriminate; [cbn [List.length] in Hf; lia|].
  rewrite decode_int_is_loop. intros H.
  apply bind_raise in H as [H|([seg b'] & Hd & H)].
  - apply decode_int_loop_raises in H. discriminate.
  - apply decode_int_loop_consumes in Hd.
    apply bind_raise in H as [H|(rest & _ & H)]; [|discriminate].
    revert H. apply IH. cbn [List.length] in *. lia.
Qed.

Lemma decode_len_header (i : bytes) (n : Z) (lb buf : bytes) :
  _decode_len i = Ok (n, lb, buf) -> exists l0 lb', lb = l0 :: lb'.
Proof.
  destruct i as [|l0 i]; [discriminate|]. unfold _decode_len.
  assert (Hk : 0 <= Z.land (bv l0) 0x7F)
    by (rewrite land_0x7F; apply Z.mod_pos_bound; lia).
  destruct (0x80 <? bv l0); intros H.
  - rewrite take_succ_cons in H by assumption. injection H as _ <- _. eauto.
  - rewrite take_1_cons in H. injection H as _ <- _. eauto.
Qed.

Lemma enter_consumes (tag : Z) (b content rem : bytes) :
  enter tag b = Ok (content, rem) ->
  (List.length content + List.length rem + 2 <= List.length b)%nat.
Proof.
  destruct b as [|b0 b]; [discriminate|]. cbn [enter]. rewrite drop_1_cons.
  intros H. apply bind_ok in H as (u & _ & H).
  apply bind_ok in H as ([[n lb] buf] & Hd & H). injection H as <- <-.
  destruct (decode_len_header _ _ _ _ Hd) as (l0 & lb' & ->).
  apply decode_len_split in Hd as [-> _].
  pose proof (take_drop n buf) as Htd.
  apply (f_equal (@List.length byte)) in Htd. rewrite length_app in Htd.
  cbn [List.length]. rewrite length_app. cbn [List.length]. lia.
Qed.

Lemma enter_raises (tag : Z) (b : bytes) (e : exn) :
  enter tag b = Raise e -> e = IndexError \/ e = AssertionError.
Proof.
  destruct b as [|b0 b]; cbn [enter]; [intros H; injection H as <-; auto|].
  destruct (bv b0 =? tag); cbn [py_assert bind];
    [|intros H; injection H as <-; auto].
  rewrite drop_1_cons. destruct b as [|l0 b]; cbn [_decode_len bind].
  - intros H. injection H as <-. auto.
  - destruct (0x80 <? bv l0); cbn [bind]; discriminate.
Qed.

Lemma oid_from_der_consumes (b trailing : bytes) (o : ObjectID.t) :
  ObjectID.from_der b = Ok (o, trailing) ->
  (List.length trailing < List.length b)%nat.
Proof.
  unfold ObjectID.from_der. intros H.
  apply bind_ok in H as ([content rem] & He & H).
  apply enter_consumes in He.
  destruct content as [|c content]; [discriminate|].
  apply bind_ok in H as (rest & _ & H). injection H as _ <-. lia.
Qed.

Lemma oid_from_der_raises (b : bytes) (e : exn) :
  ObjectID.from_der b = Raise e -> e <> NoProgress.
Proof.
  unfold ObjectID.from_der. intros H.
  apply bind_raise in H as [H|([content rem] & _ & H)].
  - apply enter_raises in H as [-> | ->]; discriminate.
  - destruct content as [|c content]; [injection H as <-; discriminate|].
    apply bind_raise in H as [H|(rest & _ & H)]; [|discriminate].
    intros ->. revert H. apply decode_arcs_progress. lia.
Qed.

Lemma decode_oids_progress (fuel : nat) :
  forall b, (List.length b <= fuel)%nat ->
            OpenSSLCertAux.decode_oids fuel b <> Raise NoProgress.
Proof.
  induction fuel as [|fuel IH]; intros [|x b] Hf; cbn [OpenSSLCertAux.decode_oids];
    try discriminate; [cbn [List.length] in Hf; lia|].
  intros H. apply bind_raise in H as [H|([o b'] & Hd & H)].
  - apply oid_from_der_raises in H. contradiction.
  - apply oid_from_der_consumes in Hd.
    apply bind_raise in H as [H|(rest & _ & H)]; [|discriminate].
    revert H. apply IH. cbn [List.length] in *. lia.
Qed.

(** [_encode_int] runs its loop with as many rounds as it needs: a larger
    budget changes nothing. *)
Lemma encode_int_budget (n : Z) (extra : nat) :
  0 < n ->
  encode_int_loop (Z.to_nat (bit_length n) + extra) n []
  = encode_int_loop (Z.to_nat (bit_length n)) n [].
Proof.
  intros Hn. apply encode_int_loop_fuel.
  pose proof (bit_length_bound n Hn) as Hb.
  assert (0 <= bit_length n).
  { unfold bit_length. destruct (n =? 0); [lia|].
    pose proof (Z.log2_nonneg (Z.abs n)). lia. }
  rewrite Z2Nat.id by assumption. assumption.
Qed.

Section DistinguishedNameLoops.

Variable utf8_decode : bytes -> result string.
Hypothesis utf8_decode_raises : forall b, utf8_decode b <> Raise NoProgress.

Lemma decode_pair_consumes (set_b set_b' : bytes) (bit : ObjectID.t * string) :
  DistinguishedName.decode_pair utf8_decode set_b = Ok (bit, set_b') ->
  (List.length set_b' < List.length set_b)%nat.
Proof.
  destruct set_b as [|b0 set_b]; [discriminate|].
  cbn [DistinguishedName.decode_pair]. rewrite drop_1_cons. intros H.
  apply bind_ok in H as (u & _ & H).
  apply bind_ok in H as ([[seq_len lb] seq_b] & Hd & H).
  apply decode_len_split in Hd as [-> _].
  apply bind_ok in H as ([seq_oid seq_b'] & _ & H).
  destruct seq_b' as [|s0 seq_b']; [discriminate|].
  apply bind_ok in H as (u1 & _ & H).
  apply bind_ok in H as ([[part_len lb2] seq_b2] & _ & H).
  apply bind_ok in H as (u2 & _ & H).
  apply bind_ok in H as (s & _ & H). injection H as _ <-.
  cbn [List.length]. rewrite length_app. unfold drop. rewrite length_skipn. lia.
Qed.

Lemma decode_pair_raises (set_b : bytes) :
  DistinguishedName.decode_pair utf8_decode set_b <> Raise NoProgress.
Proof.
  destruct set_b as [|b0 set_b]; [discriminate|].
  cbn [DistinguishedName.decode_pair]. rewrite drop_1_cons. intros H.
  apply bind_raise in H as [H|(u & _ & H)].
  { destruct (bv b0 =? 0x30); discriminate. }
  apply bind_raise in H as [H|([[seq_len lb] seq_b] & _ & H)].
  { destruct set_b as [|l0 set_b]; [discriminate|]. cbn [_decode_len] in H.
    destruct (0x80 <? bv l0); discriminate. }
  apply bind_raise in H as [H|([seq_oid seq_b'] & _ & H)].
  { apply oid_from_der_raises in H. contradiction. }
  destruct seq_b' as [|s0 seq_b']; [discriminate|].
  apply bind_raise in H as [H|(u1 & _ & H)].
  { destruct (DistinguishedName.is_string_tag s0); discriminate. }
  apply bind_raise in H as [H|([[part_len lb2] seq_b2] & _ & H)].
  { rewrite drop_1_cons in H. destruct seq_b' as [|l0 seq_b']; [discriminate|].
    cbn [_decode_len] in H. destruct (0x80 <? bv l0); discriminate. }
  apply bind_raise in H as [H|(u2 & _ & H)].
  { destruct (drop seq_len seq_b2); discriminate. }
  apply bind_raise in H as [H|(s & _ & H)]; [|discriminate].
  exact (utf8_decode_raises _ H).
Qed.

Lemma decode_set_progress (fuel : nat) :
  forall b, (List.length b <= fuel)%nat ->
            DistinguishedName.decode_set utf8_decode fuel b <> Raise NoProgress.
Proof.
  induction fuel as [|fuel IH]; intros [|x b] Hf;
    cbn [DistinguishedName.decode_set]; try discriminate;
    [cbn [List.length] in Hf; lia|].
  intros H. apply bind_raise in H as [H|([bit b'] & Hd & H)].
  - exact (decode_pair_raises _ H).
  - apply decode_pair_consumes in Hd.
    apply bind_raise in H as [H|(rest & _ & H)]; [|discriminate].
    revert H. apply IH. cbn [List.length] in *. lia.
Qed.

Lemma decode_sets_progress (fuel : nat) :
  forall b, (List.length b <= fuel)%nat ->
            DistinguishedName.decode_sets utf8_decode fuel b <> Raise NoProgress.
Proof.
  induction fuel as [|fuel IH]; intros [|x b] Hf;
    cbn [DistinguishedName.decode_sets]; try discriminate;
    [cbn [List.length] in Hf; lia|].
  intros H. apply bind_raise in H as [H|([set_b b'] & Hd & H)].
  - apply enter_raises in H as [H|H]; discriminate.
  - apply enter_consumes in Hd.
    apply bind_raise in H as [H|(set_bits & _ & H)].
    + revert H. apply decode_set_progress. lia.
    + apply bind_raise in H as [H|(rest & _ & H)]; [|discriminate].
      revert H. apply IH. cbn [List.length] in *. lia.
Qed.

End DistinguishedNameLoops.

(** *** Sanity checks on concrete inputs *)

Example decode_len_short : _decode_len [x05; x01] = Ok (5, [x05], [x01]).
Proof. reflexivity. Qed.

Example decode_len_long :
  _decode_len [x82; x01; x00; xaa] = Ok (256, [x82; x01; x00], [xaa]).
Proof. reflexivity. Qed.

Example encode_len_300 : _encode_len 300 = Ok [x82; x01; x2c].
Proof. reflexivity. Qed.

Example encode_int_840 : _encode_int 840 = Ok [x86; x48].
Proof. reflexivity. Qed.

Example encode_int_113549 : _encode_int 113549 = Ok [x86; xf7; x0d].
Proof. reflexivity. Qed.

Example decode_int_113549 : _decode_int [x86; xf7; x0d; x01] = Ok (113549, [x01]).
Proof. reflexivity. Qed.

(** *** The PEM stream decoder *)

Lemma scan_begin_none (fp prefix : list string) :
  Forall (fun ln => PEMBlock.begin_match ln = None) fp ->
  PEMBlock.scan_begin fp prefix = (None, (prefix ++ fp)%list, []).
Proof.
  intros H. revert prefix.
  induction H as [|ln fp Hln _ IH]; intros prefix; cbn [PEMBlock.scan_begin].
  - rewrite app_nil_r. reflexivity.
  - rewrite Hln, IH, <- app_assoc. reflexivity.
Qed.

Lemma scan_begin_found (pre rest prefix : list string) (begin_line label : string) :
  Forall (fun ln => PEMBlock.begin_match ln = None) pre ->
  PEMBlock.begin_match begin_line = Some label ->
  PEMBlock.scan_begin (pre ++ begin_line :: rest) prefix
  = (Some label, (prefix ++ pre)%list, rest).
Proof.
  intros H Hb. revert prefix.
  induction H as [|ln pre Hln _ IH]; intros prefix; cbn [app PEMBlock.scan_begin].
  - rewrite Hb, app_nil_r. reflexivity.
  - rewrite Hln, IH, <- app_assoc. reflexivity.
Qed.

Lemma scan_end_none (name : string) (fp bits : list string) (v : PEMBlock.local bool) :
  Forall (fun ln => PEMBlock.end_match name ln = false) fp ->
  fp <> [] ->
  PEMBlock.scan_end name fp bits v = (PEMBlock.Bound false, (bits ++ fp)%list, []).
Proof.
  intros H. revert bits v.
  induction H as [|ln fp Hln Hfp IH]; intros bits v Hne; [contradiction|].
  cbn [PEMBlock.scan_end]. rewrite Hln.
  destruct fp as [|ln' fp].
  - reflexivity.
  - rewrite IH by discriminate. rewrite <- app_assoc. reflexivity.
Qed.


(** *** Framing of the certificate body, headers, attribute pairs *)

Lemma tbs_framing (tbs_der : bytes) (tbs : TBSCertificate.t) :
  complete_element x30 tbs_der ->
  TBSCertificate.from_der tbs_der = Ok (tbs, []) ->
  forall extra, TBSCertificate.from_der (tbs_der ++ extra) = Ok (tbs, extra).
Proof.
  intros (lb & v & -> & Hdec) Hacc extra.
  unfold TBSCertificate.from_der in *.
  cbn [app]. rewrite <- app_assoc.
  change 0x30 with (bv x30) at 1.
  rewrite (enter_complete x30 lb v extra Hdec). cbn [bind].
  replace (x30 :: lb ++ v) with (x30 :: lb ++ v ++ []) in Hacc
    by (rewrite app_nil_r; reflexivity).
  change 0x30 with (bv x30) in Hacc at 1.
  rewrite (enter_complete x30 lb v [] Hdec) in Hacc. cbn [bind] in Hacc.
  destruct (TBSCertificate.version_and_serial v) as [[[ver ser] b1]|];
    [|discriminate Hacc].
  cbn [bind] in *.
  destruct (TBSCertificate.expect 0x30 b1) as [[f2 b2]|]; [|discriminate Hacc].
  cbn [bind] in *.
  destruct (TBSCertificate.expect 0x30 b2) as [[f3 b3]|]; [|discriminate Hacc].
  cbn [bind] in *.
  destruct (TBSCertificate.expect 0x30 b3) as [[f4 b4]|]; [|discriminate Hacc].
  cbn [bind] in *.
  destruct (TBSCertificate.expect 0x30 b4) as [[f5 b5]|]; [|discriminate Hacc].
  cbn [bind] in *.
  destruct (TBSCertificate.expect 0x30 b5) as [[f6 b6]|]; [|discriminate Hacc].
  cbn [bind] in *.
  destruct (TBSCertificate.optional_fields b6) as [[[iu su] ex]|];
    [|discriminate Hacc].
  cbn [bind] in *. injection Hacc as <-. reflexivity.
Qed.

(** A byte left inside the outer SEQUENCE, after signatureValue, trips
    [assert not b]. *)
Lemma certificate_inner_trailing_byte
  (tbs_der sa sv lb : bytes) (tbs : TBSCertificate.t) (x : byte) :
  complete_element x30 tbs_der ->
  TBSCertificate.from_der tbs_der = Ok (tbs, []) ->
  complete_element x30 sa ->
  complete_element x03 sv ->
  _encode_len (len (tbs_der ++ sa ++ sv ++ [x])) = Ok lb ->
  Certificate.from_der (x30 :: lb ++ tbs_der ++ sa ++ sv ++ [x])
  = Raise AssertionError.
Proof.
  intros Htbs Hacc Hsa Hsv Hlb. unfold Certificate.from_der.
  replace (x30 :: lb ++ tbs_der ++ sa ++ sv ++ [x])
    with (x30 :: lb ++ (tbs_der ++ sa ++ sv ++ [x]) ++ [])
    by (rewrite app_nil_r; reflexivity).
  change 0x30 with (bv x30) at 1.
  rewrite enter_complete
    by (intros r; apply decode_encode_len; [apply len_nonneg|assumption]).
  cbn [bind]. rewrite (tbs_framing tbs_der tbs Htbs Hacc). cbn [bind].
  rewrite (dumb_decode_complete x30 sa _ Hsa). cbn [bind].
  change (bv x30 =? 0x30) with true. cbn [py_assert bind].
  rewrite (dumb_decode_complete x03 sv _ Hsv). reflexivity.
Qed.

(** The base-128 form and the DER length form of one number: the same
    below 128, different from 128 to 255. *)
Lemma encode_int_vs_encode_len :
  (forall n, 0 <= n < 128 -> _encode_int n = _encode_len n)
  /\ (forall n, 128 <= n < 256 ->
        _encode_int n = Ok [x81; byte_of (n - 128)]
        /\ _encode_len n = Ok [x81; byte_of n]).
Proof.
  split.
  - intros n Hn. rewrite encode_int_small, encode_len_short by lia. reflexivity.
  - intros n Hn.
    assert (Hbl : bit_length n = 8).
    { unfold bit_length. destruct (Z.eqb_spec n 0); [lia|].
      rewrite Z.abs_eq by lia.
      assert (Z.log2 n = 7); [|lia].
      apply Z.log2_unique; [lia|]. change (2 ^ 7) with 128.
      change (2 ^ (7 + 1)) with 256. lia. }
    split.
    + rewrite encode_int_large by lia. rewrite Hbl.
      replace (n / 128) with 1
        by (apply Z.div_unique with (n - 128); lia).
      replace (n mod 128) with (n - 128)
        by (apply Z.mod_unique with 1; lia).
      reflexivity.
    + destruct (encode_len_long n) as (_ & _ & E);
        [split; [lia|]; apply Z.lt_trans with 256; [lia|reflexivity]|].
      rewrite E, Hbl. change ((8 + 7) / 8) with 1. cbn [Z.to_nat].
      change (Pos.to_nat 1) with 1%nat. cbn [to_bytes_octets].
      change (8 * Z.of_nat 0) with 0. rewrite Z.shiftr_0_r.
      rewrite Z.mod_small by lia. reflexivity.
Qed.

Section DistinguishedNamePair.

Variable utf8_decode : bytes -> result string.

(** An attribute SEQUENCE that holds exactly one identifier and one
    directory string: the string decoded is the string element's content. *)
Lemma decode_pair_single_value
  (o : ObjectID.t) (oid_der lb : bytes) (s0 : byte) (slb v rest : bytes) :
  encodable_oid o ->
  ObjectID.as_der o = Ok oid_der ->
  DistinguishedName.is_string_tag s0 = true ->
  (forall r, _decode_len (slb ++ v ++ r) = Ok (len v, slb, v ++ r)) ->
  _encode_len (len (oid_der ++ s0 :: slb ++ v)) = Ok lb ->
  DistinguishedName.decode_pair utf8_decode
    (x30 :: lb ++ (oid_der ++ s0 :: slb ++ v) ++ rest)
  = (s <- utf8_decode v ;; Ok ((anonymous o, s), rest)).
Proof.
  intros Ho Eo Htag Hs Hlb.
  destruct (oid_roundtrip o Ho) as (d & Ed & _ & Hdec).
  rewrite Eo in Ed. injection Ed as <-.
  cbn [DistinguishedName.decode_pair]. change (bv x30 =? 0x30) with true.
  cbn [py_assert bind]. rewrite drop_1_cons.
  rewrite (decode_encode_len _ lb _ (len_nonneg _) Hlb). cbn [bind].
  rewrite take_app_exact, drop_app_exact.
  rewrite Hdec. cbn [bind]. rewrite Htag. cbn [py_assert bind].
  rewrite drop_1_cons.
  specialize (Hs []). rewrite app_nil_r in Hs. rewrite Hs. cbn [bind].
  rewrite take_short, drop_short
    by (rewrite !len_app, len_cons, len_app;
        pose proof (len_nonneg oid_der); pose proof (len_nonneg slb); lia).
  reflexivity.
Qed.

End DistinguishedNamePair.

(** ** The claims *)

Lemma sample_cert_well_formed : well_formed_certificate sample_cert_der sample_cert.
Proof.
  split; [|reflexivity].
  exists [x14], sample_cert_content. split; [reflexivity|].
  intros rest. reflexivity.
Qed.

Ltac prove_encodable :=
  repeat first
    [ exact I
    | apply Forall_nil
    | apply Forall_cons
    | split
    | lia
    | progress cbn [encodable_aux encodable_oids encodable_oid encodable_arcs
                    OpenSSLCertAux.trust OpenSSLCertAux.reject ObjectID.oid
                    sample_aux serverAuth emailProtection sha256WithRSAEncryption]
    | (vm_compute; reflexivity) ].

Lemma sample_aux_encodable : encodable_aux sample_aux.
Proof. unfold encodable_aux, encodable_oids. prove_encodable. Qed.

(** C1 (amended).  For every well-formed Certificate encoding [cert_der] (one
    complete SEQUENCE element the decoder accepts) and every auxiliary
    structure whose identifiers [ObjectID.as_der] can encode,
    [parse_trusted_certificate (to_trusted_certificate cert_der aux)]
    returns [cert_der] unchanged, an auxiliary structure equal to [aux] (the
    same arcs, the names dropped) and an empty remainder. *)
Theorem trusted_certificate_round_trip :
  forall (cert_der : bytes) (c : Certificate.t) (aux : OpenSSLCertAux.t),
    well_formed_certificate cert_der c ->
    encodable_aux aux ->
    exists pb aux',
      to_trusted_certificate cert_der aux = Ok pb
      /\ parse_trusted_certificate pb = Ok (cert_der, aux', [])
      /\ aux' = OpenSSLCertAux.mk (map anonymous (OpenSSLCertAux.trust aux))
                                  (map anonymous (OpenSSLCertAux.reject aux))
      /\ OpenSSLCertAux.eqb aux' aux = true.
Proof.
  intros cert_der c aux Hcert Haux.
  destruct (aux_roundtrip aux Haux) as (d & Ed & Hdec).
  exists (PEMBlock.mk "TRUSTED CERTIFICATE" (cert_der ++ d)).
  eexists. split; [unfold to_trusted_certificate; rewrite Ed; reflexivity|].
  split; [|split; [reflexivity|]].
  - unfold parse_trusted_certificate. cbn [PEMBlock.name PEMBlock.content].
    change (String.eqb "TRUSTED CERTIFICATE" "TRUSTED CERTIFICATE") with true.
    cbn [py_assert bind].
    rewrite (certificate_framing cert_der c Hcert d). cbn [bind].
    specialize (Hdec []). rewrite app_nil_r in Hdec. rewrite Hdec. cbn [bind].
    rewrite len_app. replace (len cert_der + len d - len d) with (len cert_der) by lia.
    rewrite take_app_exact. reflexivity.
  - unfold OpenSSLCertAux.eqb. cbn [OpenSSLCertAux.trust OpenSSLCertAux.reject].
    rewrite !oids_eqb_anonymous. reflexivity.
Qed.

Lemma trusted_certificate_round_trip_sample :
  exists pb aux',
    to_trusted_certificate sample_cert_der sample_aux = Ok pb
    /\ parse_trusted_certificate pb = Ok (sample_cert_der, aux', [])
    /\ aux' = OpenSSLCertAux.mk (map anonymous (OpenSSLCertAux.trust sample_aux))
                                (map anonymous (OpenSSLCertAux.reject sample_aux))
    /\ OpenSSLCertAux.eqb aux' sample_aux = true.
Proof.
  apply (trusted_certificate_round_trip sample_cert_der sample_cert sample_aux).
  - split; [|reflexivity].
    exists [x14], sample_cert_content. split; [reflexivity|].
    intros rest. reflexivity.
  - unfold encodable_aux, encodable_oids. prove_encodable.
Defined.

(** The claim as stated fails at an auxiliary structure with the one trust
    identifier 2.999.3: [to_trusted_certificate] raises [ValueError]. *)
Lemma trusted_certificate_unencodable_oid :
  well_formed_certificate sample_cert_der sample_cert
  /\ OpenSSLCertAux.trust aux_2_999_3 = [oid_2_999_3]
  /\ to_trusted_certificate sample_cert_der aux_2_999_3 = Raise ValueError.
Proof.
  split; [exact sample_cert_well_formed|]. split; reflexivity.
Qed.

(** C3 (amended).  Appending bytes (one in particular) after a well-formed
    Certificate encoding does not make the decoder fail: it returns the same
    certificate and the appended bytes as the unconsumed remainder.  Inside
    the outer SEQUENCE nothing is left over: after the TBSCertificate, the
    content is exactly the signatureAlgorithm and signatureValue spans.  The
    decoder fails, with [AssertionError], when a byte is left inside the
    outer SEQUENCE after a complete signatureValue element. *)
Theorem certificate_appended_bytes_are_remainder :
  forall (cert_der : bytes) (c : Certificate.t),
    well_formed_certificate cert_der c ->
    (forall extra, Certificate.from_der (cert_der ++ extra) = Ok (c, extra))
    /\ (exists content,
          enter 0x30 cert_der = Ok (content, [])
          /\ TBSCertificate.from_der content
             = Ok (Certificate.tbs_certificate c,
                   Certificate.signature_algorithm c ++ Certificate.signature_value c))
    /\ (forall (tbs_der sa sv lb : bytes) (tbs : TBSCertificate.t) (x : byte),
          complete_element x30 tbs_der ->
          TBSCertificate.from_der tbs_der = Ok (tbs, []) ->
          complete_element x30 sa ->
          complete_element x03 sv ->
          _encode_len (len (tbs_der ++ sa ++ sv ++ [x])) = Ok lb ->
          Certificate.from_der (x30 :: lb ++ tbs_der ++ sa ++ sv ++ [x])
          = Raise AssertionError).
Proof.
  intros cert_der c Hwf. split; [apply certificate_framing; assumption|].
  split; [|apply certificate_inner_trailing_byte].
  destruct Hwf as [_ H]. unfold Certificate.from_der in H.
  apply bind_ok in H as ([content rem] & He & H).
  apply bind_ok in H as ([tbs b1] & Ht & H).
  apply bind_ok in H as ([[t1 sa] b2] & H1 & H).
  apply bind_ok in H as (u1 & _ & H).
  apply bind_ok in H as ([[t2 sv] b3] & H2 & H).
  apply bind_ok in H as (u2 & _ & H).
  apply bind_ok in H as (u3 & Hb3 & H).
  injection H as <- <-.
  apply assert_ok in Hb3. destruct b3; [|discriminate].
  apply dumb_decode_split in H1, H2. subst.
  exists content. split; [assumption|].
  cbn [Certificate.tbs_certificate Certificate.signature_algorithm
       Certificate.signature_value].
  rewrite app_nil_r in Ht. assumption.
Qed.

Lemma certificate_appended_bytes_sample :
  (forall extra, Certificate.from_der (sample_cert_der ++ extra) = Ok (sample_cert, extra))
  /\ exists content,
       enter 0x30 sample_cert_der = Ok (content, [])
       /\ TBSCertificate.from_der content
          = Ok (Certificate.tbs_certificate sample_cert,
                Certificate.signature_algorithm sample_cert
                ++ Certificate.signature_value sample_cert).
Proof.
  refine (let H := certificate_appended_bytes_are_remainder
                     sample_cert_der sample_cert _ in
          conj (proj1 H) (proj1 (proj2 H))).
  split; [|reflexivity].
  exists [x14], sample_cert_content. split; [reflexivity|].
  intros rest. reflexivity.
Defined.

(** The claim as stated fails: with the octet 0x00 appended after a
    well-formed encoding the decoder returns, and hands the octet back. *)
Lemma certificate_appended_byte_accepted :
  well_formed_certificate sample_cert_der sample_cert
  /\ Certificate.from_der (sample_cert_der ++ [x00]) = Ok (sample_cert, [x00]).
Proof. split; [exact sample_cert_well_formed|reflexivity]. Qed.

(** C4 (amended).  For every arc sequence the codec can encode (at least two
    arcs, first arc 0, 1 or 2, second arc below 40 under a first arc 0 or 1,
    [40 * first + second <= 255], further arcs non-negative, content within
    the length header's reach), decoding the DER encoding of the identifier
    yields the same arcs, with nothing left over. *)
Theorem objectid_round_trip :
  forall o : ObjectID.t,
    encodable_oid o ->
    exists d o',
      ObjectID.as_der o = Ok d
      /\ ObjectID.from_der d = Ok (o', [])
      /\ ObjectID.oid o' = ObjectID.oid o.
Proof.
  intros o Ho. destruct (oid_roundtrip o Ho) as (d & Ed & _ & Hdec).
  exists d, (anonymous o). split; [assumption|]. split; [|reflexivity].
  specialize (Hdec []). rewrite app_nil_r in Hdec. assumption.
Qed.

Lemma objectid_round_trip_sha256WithRSAEncryption :
  exists d o',
    ObjectID.as_der sha256WithRSAEncryption = Ok d
    /\ ObjectID.from_der d = Ok (o', [])
    /\ ObjectID.oid o' = [1; 2; 840; 113549; 1; 1; 11].
Proof.
  apply (objectid_round_trip sha256WithRSAEncryption).
  unfold encodable_oid. prove_encodable.
Defined.

(** The claim as stated fails at the arcs 2.999.3 it names: the first two
    arcs do not fit the single octet [as_der] gives them. *)
Lemma objectid_2_999_3_not_encodable :
  ObjectID.as_der (ObjectID.mk None [2; 999; 3]) = Raise ValueError.
Proof. reflexivity. Qed.

(** C2 (amended).  For every byte string [TBSCertificate.from_der] accepts,
    the captured spans concatenated in X.509 order are a prefix of the outer
    SEQUENCE content, and they reproduce it byte for byte when nothing but
    the optional issuerUniqueID (0xA1), subjectUniqueID (0xA2) and extensions
    (0xA3) elements, each at most once and in this order, follows
    subjectPublicKeyInfo. *)
Theorem tbs_spans_account_for_content :
  forall (b : bytes) (t : TBSCertificate.t) (rem content : bytes),
    TBSCertificate.from_der b = Ok (t, rem) ->
    enter 0x30 b = Ok (content, rem) ->
    (exists dropped, content = all_spans t ++ dropped)
    /\ (forall iu su ex : option bytes,
          content = leading_spans t ++ span iu ++ span su ++ span ex ->
          optional_element xa1 iu ->
          optional_element xa2 su ->
          optional_element xa3 ex ->
          all_spans t = content).
Proof.
  intros b t rem content Hdec Henter.
  destruct (tbs_from_der_inv b t rem Hdec) as (content' & tl & He & Hc & Ho).
  rewrite He in Henter. injection Henter as ->.
  split.
  - destruct (optional_fields_prefix _ _ _ _ Ho) as (dropped & Htl).
    exists dropped. rewrite Hc, Htl. unfold all_spans, trailing_spans.
    rewrite <- !app_assoc. reflexivity.
  - intros iu su ex Hshape H1 H2 H3.
    rewrite Hc in Hshape. apply app_inv_head in Hshape. subst tl.
    rewrite (optional_fields_recorded iu su ex H1 H2 H3) in Ho.
    injection Ho as E1 E2 E3.
    rewrite Hc. unfold all_spans, trailing_spans.
    rewrite <- E1, <- E2, <- E3. reflexivity.
Qed.

Lemma tbs_spans_all_fields_sample :
  (exists dropped, skipn 2 tbs_der_all_fields = all_spans tbs_all_fields ++ dropped)
  /\ (forall iu su ex : option bytes,
        skipn 2 tbs_der_all_fields
        = leading_spans tbs_all_fields ++ span iu ++ span su ++ span ex ->
        optional_element xa1 iu ->
        optional_element xa2 su ->
        optional_element xa3 ex ->
        all_spans tbs_all_fields = skipn 2 tbs_der_all_fields).
Proof.
  apply (tbs_spans_account_for_content tbs_der_all_fields tbs_all_fields []);
    reflexivity.
Defined.

(** The claim as stated fails: the decoder accepts a TBSCertificate whose
    content ends in a NULL element, captures no span for it, and the spans
    concatenated fall two octets short of the content. *)
Lemma tbs_spans_miss_stray_element :
  TBSCertificate.from_der tbs_der_with_stray_null = Ok (sample_tbs, [])
  /\ enter 0x30 tbs_der_with_stray_null = Ok (sample_tbs_content ++ [x05; x00], [])
  /\ all_spans sample_tbs = sample_tbs_content
  /\ all_spans sample_tbs <> sample_tbs_content ++ [x05; x00].
Proof. repeat split; try reflexivity. discriminate. Qed.

(** C5.  Equality compares the arcs only, whatever the names; [hash] hashes
    the arc list, a Python [list], and raises [TypeError] for every
    identifier. *)
Theorem objectid_eq_ignores_name_but_hash_raises :
  forall (n1 n2 : option string) (arcs : list Z),
    ObjectID.eqb (ObjectID.mk n1 arcs) (ObjectID.mk n2 arcs) = true
    /\ ObjectID.hash (ObjectID.mk n1 arcs) = Raise TypeError.
Proof.
  intros n1 n2 arcs. split; [|reflexivity].
  unfold ObjectID.eqb. cbn [ObjectID.oid]. apply arcs_eqb_refl.
Qed.

(** C6 (amended).  The walker makes no truncation check: whenever the decoded
    length field declares more value octets than the input holds,
    [_dumb_decode] returns an element whose value is just the octets
    available, and an empty remainder.  It fails on no input of two octets or
    more: only a missing tag or a missing first length octet stops it. *)
Theorem dumb_decode_keeps_short_value :
  forall (tag : byte) (tl : bytes) (n : Z) (lb buf : bytes),
    _decode_len tl = Ok (n, lb, buf) ->
    len buf < n ->
    _dumb_decode (tag :: tl) = Ok ((tag, tag :: lb ++ buf), [])
    /\ forall i : bytes,
         (exists r, _dumb_decode i = Ok r) <-> (2 <= List.length i)%nat.
Proof.
  intros tag tl n lb buf Hd Hshort. split; [|apply dumb_decode_total].
  cbn [_dumb_decode].
  rewrite drop_1_cons, take_1_cons, Hd. cbn [bind app].
  rewrite take_short, drop_short by lia. reflexivity.
Qed.

Lemma dumb_decode_keeps_short_value_sample :
  _dumb_decode [x04; x05; x01; x02] = Ok ((x04, [x04; x05; x01; x02]), []).
Proof.
  refine (proj1 (dumb_decode_keeps_short_value
                   x04 [x05; x01; x02] 5 [x05] [x01; x02] _ _)).
  - reflexivity.
  - reflexivity.
Defined.

(** The claim as stated fails: an OCTET STRING that declares five value
    octets and holds one is returned, not refused. *)
Lemma dumb_decode_truncated_returns :
  _decode_len [x05; x01] = Ok (5, [x05], [x01])
  /\ _dumb_decode [x04; x05; x01] = Ok ((x04, [x04; x05; x01]), []).
Proof. split; reflexivity. Qed.

(** C7 (amended).  For every first octet strictly above 0x80 the short form
    is not used: the low 7 bits (the octet minus 0x80) give the count of
    following value octets, read big-endian.  No first octet makes
    [_decode_len] fail: it returns on every non-empty input. *)
Theorem decode_len_long_form_above_0x80 :
  forall (i0 : byte) (v rest : bytes),
    0x80 < bv i0 ->
    len v = Z.land (bv i0) 0x7F ->
    _decode_len (i0 :: v ++ rest) = Ok (from_bytes_big v, i0 :: v, rest)
    /\ Z.land (bv i0) 0x7F = bv i0 - 0x80
    /\ forall (j0 : byte) (tail : bytes), exists r, _decode_len (j0 :: tail) = Ok r.
Proof.
  intros i0 v rest Hhi Hlen. split; [apply decode_len_long_form; assumption|].
  split.
  - pose proof (bv_range i0). rewrite land_0x7F.
    replace (bv i0) with (bv i0 - 0x80 + 1 * 128) at 1 by lia.
    rewrite Z.mod_add, Z.mod_small by lia. reflexivity.
  - intros j0 tail. cbn [_decode_len]. destruct (0x80 <? bv j0); eauto.
Qed.

Lemma decode_len_long_form_sample :
  _decode_len (x82 :: [x01; x2c] ++ [xaa; xbb])
  = Ok (from_bytes_big [x01; x2c], x82 :: [x01; x2c], [xaa; xbb])
  /\ Z.land (bv x82) 0x7F = bv x82 - 0x80
  /\ forall (j0 : byte) (tail : bytes), exists r, _decode_len (j0 :: tail) = Ok r.
Proof.
  apply (decode_len_long_form_above_0x80 x82 [x01; x2c] [xaa; xbb]); reflexivity.
Defined.

(** The claim as stated fails: on a first octet 0x80 the decoder does not
    fail, and it answers in the short form, with the octet's own value. *)
Lemma decode_len_0x80_is_short_form :
  _decode_len [x80; x01; x02] = Ok (0x80, [x80], [x01; x02]).
Proof. reflexivity. Qed.

(** C8.  At a DistinguishedName whose attribute SEQUENCE holds a second
    value after the directory string, the decoder does not fail: it slices
    the string with the SEQUENCE's length and so takes everything that
    follows the string's header as the string.  The same body slicing with
    the string's own length fails its assertion. *)
Theorem dn_second_value_is_swallowed :
  forall utf8_decode : bytes -> result string,
    DistinguishedName.from_der utf8_decode dn_with_two_values
    = (s <- utf8_decode [x41; x0c; x01; x42] ;;
       Ok (DistinguishedName.mk [[(commonName, s)]], []))
    /\ DistinguishedName.decode_pair_by_part_len utf8_decode attribute_with_two_values
       = Raise AssertionError.
Proof.
  intros utf8_decode. split; [|reflexivity].
  vm_compute. destruct (utf8_decode _); reflexivity.
Qed.

(** C9.  At an extension whose inner encoding is 143 octets long, [as_der]
    writes the OCTET STRING header 0x04 0x81 0x0F (the base-128 form of 143,
    from [_encode_int]) where the DER length of 143 is 0x81 0x8F.  The two
    forms agree below 128 and differ for every length from 128 to 255. *)
Theorem cert_extension_long_octet_string_header :
  ObjectID.as_der extKeyUsage = Ok extKeyUsage_der
  /\ ExtendedKeyUsages.as_der long_eku = Ok long_eku_der
  /\ len long_eku_der = 143
  /\ der_octet_string long_eku_der = Ok (x04 :: x81 :: x8f :: long_eku_der)
  /\ CertExtension.as_der long_extension
     = Ok (x30 :: x81 :: x9a :: extKeyUsage_der ++ [x01; x01; xff]
           ++ x04 :: x81 :: x0f :: long_eku_der)
  /\ (forall n, 0 <= n < 128 -> _encode_int n = _encode_len n)
  /\ (forall n, 128 <= n < 256 ->
        _encode_int n = Ok [x81; byte_of (n - 128)]
        /\ _encode_len n = Ok [x81; byte_of n]).
Proof.
  repeat match goal with
         | |- _ /\ (forall n, 0 <= n < 128 -> _) /\ _ => split
         | |- (forall n, 0 <= n < 128 -> _) /\ _ => exact encode_int_vs_encode_len
         | |- _ /\ _ => split
         | |- _ => vm_compute; reflexivity
         end.
Qed.

(** C10 (amended).  The two failure modes are not distinguished: a stream
    with no BEGIN marker yields the "not found" result [None], and a stream
    in which a BEGIN marker is followed by at least one line, none of them
    the END marker with the same label, yields the same [None]; in both
    cases the stream is read to its end. *)
Theorem pem_missing_end_is_not_found :
  forall (b64decode : string -> result bytes)
         (pre : list string) (begin_line label ln : string) (body : list string),
    Forall (fun l => PEMBlock.begin_match l = None) pre ->
    PEMBlock.begin_match begin_line = Some label ->
    Forall (fun l => PEMBlock.end_match label l = false) (ln :: body) ->
    PEMBlock.decode_from_file b64decode pre = (Ok None, [])
    /\ PEMBlock.decode_from_file b64decode (pre ++ begin_line :: ln :: body)
       = (Ok None, []).
Proof.
  intros b64decode pre begin_line label ln body Hpre Hbegin Hbody.
  unfold PEMBlock.decode_from_file. split.
  - rewrite (scan_begin_none pre [] Hpre). reflexivity.
  - rewrite (scan_begin_found pre (ln :: body) [] begin_line label Hpre Hbegin).
    rewrite (scan_end_none label (ln :: body) [] PEMBlock.Unbound Hbody) by discriminate.
    reflexivity.
Qed.

Lemma pem_missing_end_is_not_found_sample :
  PEMBlock.decode_from_file (fun _ => Raise ValueError) pem_no_begin = (Ok None, [])
  /\ PEMBlock.decode_from_file (fun _ => Raise ValueError) pem_missing_end
     = (Ok None, []).
Proof.
  apply (pem_missing_end_is_not_found (fun _ => Raise ValueError)
           pem_no_begin pem_begin_x "X" "AAAA
" ["BBBB
"%string]).
  - repeat constructor.
  - reflexivity.
  - repeat constructor.
Defined.

(** The claim as stated fails: a block cut off before its END line gives,
    whatever the base64 decoder, the very result of a stream with no BEGIN
    line, not an error. *)
Lemma pem_truncated_block_returns_none :
  PEMBlock.begin_match pem_begin_x = Some "X"%string
  /\ forall b64decode : string -> result bytes,
       PEMBlock.decode_from_file b64decode pem_missing_end = (Ok None, [])
       /\ PEMBlock.decode_from_file b64decode pem_no_begin = (Ok None, []).
Proof. split; [reflexivity|]. intros b64decode. split; reflexivity. Qed.

(** * Further properties of the code *)

(** ** Further properties of the codec *)

(** *** Helper facts *)

Lemma mk_byte_inv (z : Z) (b : byte) : mk_byte z = Ok b -> 0 <= z < 256.
Proof.
  unfold mk_byte. destruct (Z.ltb_spec z 0), (Z.ltb_spec 255 z); cbn [orb];
    try discriminate. lia.
Qed.

Lemma mk_byte_negative (z : Z) : z < 0 -> mk_byte z = Raise ValueError.
Proof.
  intros H. unfold mk_byte. destruct (Z.ltb_spec z 0); [reflexivity|lia].
Qed.

Lemma bit_length_lower (n : Z) : 0 < n -> 2 ^ (bit_length n - 1) <= n.
Proof.
  intros Hn. unfold bit_length. destruct (Z.eqb_spec n 0); [lia|].
  rewrite Z.abs_eq by lia. replace (Z.log2 n + 1 - 1) with (Z.log2 n) by lia.
  apply Z.log2_spec. assumption.
Qed.

Lemma encode_len_too_long (n : Z) :
  2 ^ 1016 <= n -> _encode_len n = Raise AssertionError.
Proof.
  intros Hn. assert (Hpos : 0 < 2 ^ 1016) by reflexivity.
  unfold _encode_len. destruct (Z.ltb_spec n 0x80) as [Hs|_].
  { exfalso. assert (0x80 < 2 ^ 1016) by reflexivity. lia. }
  assert (Hbl : 1017 <= bit_length n).
  { unfold bit_length. destruct (Z.eqb_spec n 0); [lia|].
    rewrite Z.abs_eq by lia.
    assert (1016 <= Z.log2 n) by (apply Z.log2_le_pow2; lia). lia. }
  assert (Hk : 128 <= (bit_length n + 7) / 8)
    by (apply Z.div_le_lower_bound; lia).
  destruct (Z.ltb_spec ((bit_length n + 7) / 8) 0x80); [lia|]. reflexivity.
Qed.

Lemma encode_len_ok_inv (n : Z) (e : bytes) :
  _encode_len n = Ok e -> 0 <= n < 2 ^ 1016.
Proof.
  intros H. destruct (Z.lt_ge_cases n 0) as [Hneg|Hnn].
  - unfold _encode_len in H. destruct (Z.ltb_spec n 0x80); [|lia].
    rewrite mk_byte_negative in H by assumption. discriminate.
  - split; [assumption|]. destruct (Z.lt_ge_cases n (2 ^ 1016)); [assumption|].
    rewrite encode_len_too_long in H by assumption. discriminate.
Qed.

(** X1.  On every length from 0 up to (not including) 2^1016, [_encode_len]
    returns, and [_decode_len] reads the encoding back off the front of any
    buffer: it returns the length, the encoding as the length field, and what
    followed it. *)
Theorem length_round_trip :
  forall (n : Z) (rest : bytes),
    0 <= n < 2 ^ 1016 ->
    exists e,
      _encode_len n = Ok e
      /\ _decode_len (e ++ rest) = Ok (n, e, rest).
Proof.
  intros n rest Hn. destruct (encode_len_total n Hn) as (e & E).
  exists e. split; [assumption|]. apply decode_encode_len; [lia|assumption].
Qed.

Lemma length_round_trip_65536 :
  exists e,
    _encode_len 65536 = Ok e
    /\ _decode_len (e ++ [xaa]) = Ok (65536, e, [xaa]).
Proof.
  apply (length_round_trip 65536 [xaa]). split; now vm_compute.
Defined.

(** X2.  [_encode_len] returns exactly on the lengths from 0 up to 2^1016:
    a negative number raises [ValueError] (it is stored in a [bytearray]),
    a number of 2^1016 or more fails [assert length_bytes < 0x80]. *)
Theorem encode_len_domain :
  forall n : Z,
    (n < 0 -> _encode_len n = Raise ValueError)
    /\ (2 ^ 1016 <= n -> _encode_len n = Raise AssertionError)
    /\ ((exists e, _encode_len n = Ok e) <-> 0 <= n < 2 ^ 1016).
Proof.
  intros n. split; [|split; [apply encode_len_too_long|split]].
  - intros Hn. unfold _encode_len. destruct (Z.ltb_spec n 0x80); [|lia].
    rewrite mk_byte_negative by assumption. reflexivity.
  - intros (e & E). eapply encode_len_ok_inv. eassumption.
  - apply encode_len_total.
Qed.

(** X3.  A length of 128 or more is written in the minimal long form: one
    octet 0x80 + k with 1 <= k <= 127, then k octets that are the length in
    big-endian order, the first of them not zero. *)
Theorem encode_len_minimal_long_form :
  forall n : Z,
    128 <= n < 2 ^ 1016 ->
    exists (h v0 : byte) (v : bytes),
      _encode_len n = Ok (h :: v0 :: v)
      /\ bv h = 0x80 + len (v0 :: v)
      /\ len (v0 :: v) <= 127
      /\ from_bytes_big (v0 :: v) = n
      /\ bv v0 <> 0.
Proof.
  intros n Hn.
  destruct (encode_len_long n) as (Hk & Hfit & E); [lia|].
  set (k := (bit_length n + 7) / 8) in *.
  assert (Hk' : Z.to_nat k = S (Z.to_nat (k - 1))) by lia.
  rewrite Hk' in E. cbn [to_bytes_octets] in E.
  set (v0 := byte_of (Z.shiftr n (8 * Z.of_nat (Z.to_nat (k - 1))) mod 256)) in *.
  set (v := to_bytes_octets (Z.to_nat (k - 1)) n) in *.
  assert (Hlen : len (v0 :: v) = k).
  { rewrite len_cons. unfold len, v. rewrite to_bytes_octets_length. lia. }
  assert (Hval : from_bytes_big (v0 :: v) = n).
  { pose proof (from_to_bytes_octets (Z.to_nat k) n ltac:(lia)) as F.
    rewrite Hk' in F at 1. cbn [to_bytes_octets] in F. fold v0 v in F.
    rewrite F, Z2Nat.id, Z.mod_small by lia. reflexivity. }
  exists (byte_of (k + 0x80)), v0, v.
  split; [exact E|]. split; [rewrite bv_byte_of, Hlen by lia; lia|].
  split; [lia|]. split; [assumption|].
  unfold v0. rewrite Z2Nat.id by lia.
  rewrite Z.shiftr_div_pow2 by lia.
  assert (Hpow : 0 < 2 ^ (8 * (k - 1))) by (apply Z.pow_pos_nonneg; lia).
  assert (Hlow : 2 ^ (8 * (k - 1)) <= n).
  { apply Z.le_trans with (2 ^ (bit_length n - 1)); [|apply bit_length_lower; lia].
    apply Z.pow_le_mono_r; [lia|].
    unfold k. pose proof (Z.mul_div_le (bit_length n + 7) 8 ltac:(lia)). lia. }
  assert (Hq1 : 1 <= n / 2 ^ (8 * (k - 1)))
    by (apply Z.div_le_lower_bound; lia).
  assert (Hq2 : n / 2 ^ (8 * (k - 1)) < 256).
  { apply Z.div_lt_upper_bound; [lia|].
    replace (2 ^ (8 * (k - 1)) * 256) with (256 ^ k); [assumption|].
    change 256 with (2 ^ 8). rewrite <- Z.pow_mul_r, <- Z.pow_add_r by lia.
    f_equal. lia. }
  rewrite Z.mod_small by lia. rewrite bv_byte_of by lia. lia.
Qed.

Lemma encode_len_minimal_long_form_300 :
  exists (h v0 : byte) (v : bytes),
    _encode_len 300 = Ok (h :: v0 :: v)
    /\ bv h = 0x80 + len (v0 :: v)
    /\ len (v0 :: v) <= 127
    /\ from_bytes_big (v0 :: v) = 300
    /\ bv v0 <> 0.
Proof. apply (encode_len_minimal_long_form 300). split; now vm_compute. Defined.

Lemma land_0x80_zero_iff (x : Z) :
  0 <= x < 256 -> (Z.land x 0x80 =? 0) = (x <? 0x80).
Proof.
  intros Hx. destruct (Z.ltb_spec x 0x80).
  - rewrite land_0x80_small by lia. reflexivity.
  - replace x with (x - 128 + 128) by lia.
    rewrite land_0x80_marked by lia. reflexivity.
Qed.

Lemma encode_int_loop_zero (fuel : nat) (acc : bytes) :
  encode_int_loop fuel 0 acc = acc.
Proof. destruct fuel; reflexivity. Qed.

(** Every octet the loop writes carries the continuation bit, and the last
    one written (the most significant septet) is not a bare 0x80. *)
Lemma encode_int_loop_shape (fuel : nat) :
  forall n, 0 < n < 2 ^ Z.of_nat fuel ->
    exists top front,
      rev (encode_int_loop fuel n []) = top :: front
      /\ 0x80 < bv top
      /\ Forall (fun b => 0x80 <= bv b) front.
Proof.
  induction fuel as [|fuel IH]; intros n Hn; [cbn in Hn; lia|].
  rewrite encode_int_loop_step by lia. cbn [rev].
  rewrite Nat2Z.inj_succ, Z.pow_succ_r in Hn by lia.
  pose proof (Z.mod_pos_bound n 128 ltac:(lia)) as Hm.
  pose proof (Z.div_mod n 128 ltac:(lia)) as Hdm.
  destruct (Z.eq_dec (n / 128) 0) as [E0|NE].
  - rewrite E0, encode_int_loop_zero. cbn [rev app].
    exists (byte_of (n mod 128 + 128)), []. split; [reflexivity|].
    split; [rewrite bv_byte_of by lia; lia|constructor].
  - destruct (IH (n / 128)) as (top & front & E & Htop & Hfront).
    { split; [pose proof (Z.div_pos n 128 ltac:(lia) ltac:(lia)); lia|].
      apply Z.div_lt_upper_bound; lia. }
    rewrite E. cbn [app].
    exists top, (front ++ [byte_of (n mod 128 + 128)]).
    split; [reflexivity|]. split; [assumption|].
    apply Forall_app. split; [assumption|].
    constructor; [rewrite bv_byte_of by lia; lia|constructor].
Qed.

Lemma encode_int_ok_inv (n : Z) (e : bytes) : _encode_int n = Ok e -> 0 <= n.
Proof.
  intros H. destruct (Z.lt_ge_cases n 0) as [Hneg|]; [|assumption].
  unfold _encode_int in H. destruct (Z.ltb_spec n 0x80); [|lia].
  rewrite mk_byte_negative in H by assumption. discriminate.
Qed.

(** X4.  [_encode_int] returns exactly on the non-negative numbers (a
    negative one raises [ValueError]), never an empty encoding, and
    [_decode_int] reads the encoding back off the front of any buffer,
    returning the number and what followed. *)
Theorem varint_round_trip :
  forall (n : Z) (rest : bytes),
    (n < 0 -> _encode_int n = Raise ValueError)
    /\ (0 <= n ->
        exists x e,
          _encode_int n = Ok (x :: e)
          /\ _decode_int ((x :: e) ++ rest) = Ok (n, rest)).
Proof.
  intros n rest. split.
  - intros Hn. unfold _encode_int. destruct (Z.ltb_spec n 0x80); [|lia].
    rewrite mk_byte_negative by assumption. reflexivity.
  - intros Hn. destruct (encode_int_total n Hn) as (x & e & E).
    exists x, e. split; [assumption|]. apply decode_encode_int; assumption.
Qed.

(** X5.  The base-128 encoding is self-delimiting and minimal: every octet
    but the last has the high bit set, the last has it clear, and an encoding
    of more than one octet does not start with 0x80. *)
Theorem varint_shape :
  forall (n : Z) (e : bytes),
    _encode_int n = Ok e ->
    exists front last,
      e = front ++ [last]
      /\ Forall (fun b => 0x80 <= bv b) front
      /\ bv last < 0x80
      /\ (forall top tl, front = top :: tl -> bv top <> 0x80).
Proof.
  intros n e E. pose proof (encode_int_ok_inv n e E) as Hn.
  destruct (Z.lt_ge_cases n 0x80) as [Hs|Hl].
  - rewrite encode_int_small in E by lia. injection E as <-.
    exists [], (byte_of n). split; [reflexivity|]. split; [constructor|].
    split; [rewrite bv_byte_of by lia; lia|]. intros top tl H. discriminate.
  - rewrite encode_int_large in E by assumption. injection E as <-.
    pose proof (Z.mod_pos_bound n 128 ltac:(lia)) as Hm.
    destruct (encode_int_loop_shape (Z.to_nat (bit_length n) - 1) (n / 128))
      as (top & front & E & Htop & Hfront).
    { split; [apply Z.div_str_pos; lia|].
      pose proof (bit_length_bound n ltac:(lia)) as Hb.
      assert (Hbl : 8 <= bit_length n).
      { destruct (Z.lt_ge_cases (bit_length n) 8) as [Hlt|]; [|assumption].
        assert (2 ^ bit_length n <= 2 ^ 7) by (apply Z.pow_le_mono_r; lia).
        change (2 ^ 7) with 128 in *. lia. }
      apply Z.div_lt_upper_bound; [lia|].
      replace (Z.of_nat (Z.to_nat (bit_length n) - 1)) with (bit_length n - 1) by lia.
      replace (bit_length n) with (bit_length n - 1 + 1) in Hb by lia.
      rewrite Z.pow_add_r in Hb by lia. lia. }
    rewrite E. exists (top :: front), (byte_of (n mod 128)).
    split; [reflexivity|]. split; [constructor; [lia|assumption]|].
    split; [rewrite bv_byte_of by lia; lia|].
    intros top' tl H. injection H as <- _. lia.
Qed.

Lemma varint_shape_113549 :
  exists front last,
    [x86; xf7; x0d] = front ++ [last]
    /\ Forall (fun b => 0x80 <= bv b) front
    /\ bv last < 0x80
    /\ (forall top tl, front = top :: tl -> bv top <> 0x80).
Proof. apply (varint_shape 113549 [x86; xf7; x0d]). reflexivity. Defined.

Lemma decode_int_loop_nonneg (b : bytes) :
  forall n m rest, 0 <= n -> decode_int_loop n b = Ok (m, rest) -> 0 <= m.
Proof.
  induction b as [|x b IH]; intros n m rest Hn; cbn [decode_int_loop];
    [discriminate|].
  assert (Hn' : 0 <= Z.lor (Z.shiftl n 7) (Z.land (bv x) 0x7F)).
  { apply Z.lor_nonneg. split; [apply Z.shiftl_nonneg; assumption|].
    rewrite land_0x7F. apply Z.mod_pos_bound. lia. }
  destruct (Z.land (bv x) 0x80 =? 0); intros H.
  - injection H as <- _. assumption.
  - eapply IH; eassumption.
Qed.

Lemma decode_int_loop_frame (b : bytes) :
  forall n m rest,
    decode_int_loop n b = Ok (m, rest) ->
    exists front last,
      b = front ++ last :: rest
      /\ Forall (fun x => 0x80 <= bv x) front
      /\ bv last < 0x80.
Proof.
  induction b as [|x b IH]; intros n m rest; cbn [decode_int_loop];
    [discriminate|].
  pose proof (bv_range x) as Hx.
  rewrite land_0x80_zero_iff by assumption.
  destruct (Z.ltb_spec (bv x) 0x80) as [Hlt|Hge]; intros H.
  - injection H as _ <-. exists [], x. repeat split; [constructor|assumption].
  - apply IH in H as (front & last & -> & Hf & Hl).
    exists (x :: front), last. repeat split; [constructor; assumption|assumption].
Qed.

Lemma decode_int_loop_all_marked (b : bytes) :
  forall n, Forall (fun x => 0x80 <= bv x) b ->
            decode_int_loop n b = Raise IndexError.
Proof.
  induction b as [|x b IH]; intros n H; cbn [decode_int_loop]; [reflexivity|].
  inversion H as [|? ? Hx Hb]; subst.
  rewrite land_0x80_zero_iff by apply bv_range.
  destruct (Z.ltb_spec (bv x) 0x80) as [Hlt|Hge]; [lia|]. apply IH. assumption.
Qed.

(** X6.  [_decode_int] stops at the first octet whose high bit is clear: when
    it returns, the value is non-negative and the input is the octets
    consumed (all but the last with the high bit set) followed by the
    remainder returned.  When every octet of the input has the high bit set
    (the empty input included) it raises [IndexError]; it raises nothing
    else. *)
Theorem decode_int_frame :
  forall b : bytes,
    (Forall (fun x => 0x80 <= bv x) b -> _decode_int b = Raise IndexError)
    /\ (forall e, _decode_int b = Raise e -> e = IndexError)
    /\ (forall n rest,
          _decode_int b = Ok (n, rest) ->
          0 <= n
          /\ exists front last,
               b = front ++ last :: rest
               /\ Forall (fun x => 0x80 <= bv x) front
               /\ bv last < 0x80).
Proof.
  intros b. rewrite decode_int_is_loop. split; [apply decode_int_loop_all_marked|].
  split; [apply decode_int_loop_raises|].
  intros n rest H. split.
  - eapply decode_int_loop_nonneg; [|eassumption]. lia.
  - eapply decode_int_loop_frame. eassumption.
Qed.

Lemma dumb_decode_span_shape (i : bytes) (tag : byte) (e rest : bytes) :
  _dumb_decode i = Ok ((tag, e), rest) -> exists l0 tl, e = tag :: l0 :: tl.
Proof.
  intros H. destruct i as [|t i']; [discriminate|]. cbn [_dumb_decode] in H.
  rewrite drop_1_cons, take_1_cons in H.
  apply bind_ok in H as ([[n lb] buf] & Hd & H). injection H as <- <- <-.
  destruct (decode_len_header _ _ _ _ Hd) as (l0 & lb' & ->).
  exists l0, (lb' ++ take n buf). reflexivity.
Qed.

(** X7.  [_dumb_decode] neither loses nor invents an octet: the span it
    returns followed by the remainder it returns is the input, and the span
    starts with the tag it reports and holds at least one length octet. *)
Theorem dumb_decode_accounts_for_input :
  forall (i : bytes) (tag : byte) (e rest : bytes),
    _dumb_decode i = Ok ((tag, e), rest) ->
    i = e ++ rest
    /\ exists l0 tl, e = tag :: l0 :: tl.
Proof.
  intros i tag e rest H. split; [eapply dumb_decode_split; eassumption|].
  eapply dumb_decode_span_shape. eassumption.
Qed.

Lemma dumb_decode_accounts_sample :
  [x04; x02; x01; x02; x05; x00] = [x04; x02; x01; x02] ++ [x05; x00]
  /\ exists l0 tl, [x04; x02; x01; x02] = x04 :: l0 :: tl.
Proof.
  apply (dumb_decode_accounts_for_input [x04; x02; x01; x02; x05; x00]).
  reflexivity.
Defined.

(** X8.  The walker reads back what the length encoder frames: for every
    tag and every value shorter than 2^1016 octets, [_dumb_decode] on the
    tag, [_encode_len] of the value's length, the value and anything after
    returns the tag, the whole element and exactly what came after. *)
Theorem dumb_decode_reads_encoded_element :
  forall (tag : byte) (v rest : bytes),
    len v < 2 ^ 1016 ->
    exists lb,
      _encode_len (len v) = Ok lb
      /\ _dumb_decode (tag :: lb ++ v ++ rest) = Ok ((tag, tag :: lb ++ v), rest).
Proof.
  intros tag v rest Hv.
  destruct (encode_len_total (len v)) as (lb & E);
    [split; [apply len_nonneg|assumption]|].
  exists lb. split; [assumption|].
  pose proof (dumb_decode_complete tag (tag :: lb ++ v) rest
                (encoded_element_complete tag lb v E)) as H.
  cbn [app] in H. rewrite <- app_assoc in H. exact H.
Qed.

Lemma dumb_decode_reads_encoded_element_sample :
  exists lb,
    _encode_len (len [x01; x02; x03]) = Ok lb
    /\ _dumb_decode (x04 :: lb ++ [x01; x02; x03] ++ [xff])
       = Ok ((x04, x04 :: lb ++ [x01; x02; x03]), [xff]).
Proof.
  apply (dumb_decode_reads_encoded_element x04 [x01; x02; x03] [xff]).
  now vm_compute.
Defined.

(** X9.  [der_int_to_python] returns only on an input that is exactly one
    INTEGER element: the raw bytes it returns are the whole input, the
    remainder is always empty, and the value is the content read as an
    unsigned big-endian number, never negative. *)
Theorem der_int_exact_element :
  forall (i : bytes) (v : Z) (raw rest : bytes),
    der_int_to_python i = Ok (v, raw, rest) ->
    raw = i /\ rest = [] /\ 0 <= v
    /\ exists lb data,
         i = x02 :: lb ++ data
         /\ _decode_len (lb ++ data) = Ok (len data, lb, data)
         /\ v = from_bytes_big data.
Proof.
  intros i v raw rest H. destruct i as [|i0 i']; [discriminate|].
  cbn [der_int_to_python] in H. rewrite drop_1_cons, take_1_cons in H.
  apply bind_ok in H as (u & Ht & H). apply assert_ok in Ht.
  apply Z.eqb_eq in Ht. change 0x02 with (bv x02) in Ht. apply bv_inj in Ht.
  subst i0.
  apply bind_ok in H as ([[n lb] data] & Hd & H).
  apply bind_ok in H as (u' & Hl & H). apply assert_ok in Hl.
  apply Z.eqb_eq in Hl. subst n. injection H as <- <- <-.
  pose proof (decode_len_split _ _ _ _ Hd) as [-> _].
  rewrite take_short, drop_short by lia.
  split; [reflexivity|]. split; [reflexivity|].
  split; [apply from_bytes_big_nonneg|].
  exists lb, data. auto.
Qed.

Lemma der_int_exact_element_sample :
  [x02; x01; xff] = [x02; x01; xff] /\ @nil byte = [] /\ 0 <= 255
  /\ exists lb data,
       [x02; x01; xff] = x02 :: lb ++ data
       /\ _decode_len (lb ++ data) = Ok (len data, lb, data)
       /\ 255 = from_bytes_big data.
Proof.
  apply (der_int_exact_element [x02; x01; xff] 255 [x02; x01; xff] []).
  reflexivity.
Defined.

(** X10.  [der_int_to_python] reads an INTEGER element framed by
    [_encode_len] when nothing follows it, and fails its length assertion
    as soon as one octet follows: unlike the other decoders it cannot be
    handed a buffer that continues after the element. *)
Theorem der_int_reads_encoded_element :
  forall data : bytes,
    len data < 2 ^ 1016 ->
    exists lb,
      _encode_len (len data) = Ok lb
      /\ der_int_to_python (x02 :: lb ++ data)
         = Ok (from_bytes_big data, x02 :: lb ++ data, [])
      /\ forall (x : byte) (extra : bytes),
           der_int_to_python (x02 :: lb ++ data ++ x :: extra)
           = Raise AssertionError.
Proof.
  intros data Hd.
  destruct (encode_len_total (len data)) as (lb & E);
    [split; [apply len_nonneg|assumption]|].
  exists lb. split; [assumption|]. split.
  - cbn [der_int_to_python]. change (bv x02 =? 0x02) with true.
    cbn [py_assert bind]. rewrite drop_1_cons, take_1_cons.
    pose proof (decode_encode_len _ lb (data ++ []) (len_nonneg data) E) as H.
    rewrite !app_nil_r in H. rewrite H. cbn [bind].
    rewrite Z.eqb_refl. cbn [py_assert bind].
    rewrite take_short, drop_short by lia. reflexivity.
  - intros x extra. cbn [der_int_to_python]. change (bv x02 =? 0x02) with true.
    cbn [py_assert bind]. rewrite drop_1_cons.
    rewrite (decode_encode_len _ lb (data ++ x :: extra) (len_nonneg data) E).
    cbn [bind]. rewrite len_app, len_cons.
    destruct (Z.eqb_spec (len data + (len extra + 1)) (len data)) as [Heq|];
      [pose proof (len_nonneg extra); lia|reflexivity].
Qed.

Lemma der_int_reads_encoded_element_sample :
  exists lb,
    _encode_len (len [x01; x00]) = Ok lb
    /\ der_int_to_python (x02 :: lb ++ [x01; x00])
       = Ok (from_bytes_big [x01; x00], x02 :: lb ++ [x01; x00], [])
    /\ forall (x : byte) (extra : bytes),
         der_int_to_python (x02 :: lb ++ [x01; x00] ++ x :: extra)
         = Raise AssertionError.
Proof. apply (der_int_reads_encoded_element [x01; x00]). now vm_compute. Defined.

(** *** ObjectID: the encoder's domain and the decoder's range *)

Lemma encode_arcs_ok_inv (arcs : list Z) :
  forall tl, ObjectID.encode_arcs arcs = Ok tl -> Forall (fun n => 0 <= n) arcs.
Proof.
  induction arcs as [|n arcs IH]; intros tl H; [constructor|].
  cbn [ObjectID.encode_arcs] in H.
  apply bind_ok in H as (e & Ee & H). apply bind_ok in H as (r & Er & _).
  constructor; [eapply encode_int_ok_inv; eassumption|eapply IH; eassumption].
Qed.

Lemma decode_arcs_nonneg (fuel : nat) :
  forall b arcs, ObjectID.decode_arcs fuel b = Ok arcs ->
                 Forall (fun n => 0 <= n) arcs.
Proof.
  induction fuel as [|fuel IH]; intros [|x b] arcs H;
    cbn [ObjectID.decode_arcs] in H; try discriminate;
    try (injection H as <-; constructor).
  apply bind_ok in H as ([seg b'] & Hd & H).
  apply bind_ok in H as (rest & Hr & H). injection H as <-.
  constructor; [|eapply IH; eassumption].
  rewrite decode_int_is_loop in Hd.
  eapply decode_int_loop_nonneg; [|eassumption]. lia.
Qed.

(** X11.  [ObjectID.as_der] returns exactly on the identifiers with at least
    two arcs whose first two arcs fit one octet ([0 <= 40 * first + second <=
    255]), whose further arcs are non-negative and whose content is shorter
    than 2^1016 octets; with fewer than two arcs it raises [IndexError]. *)
Theorem objectid_as_der_domain :
  forall o : ObjectID.t,
    ((List.length (ObjectID.oid o) < 2)%nat ->
     ObjectID.as_der o = Raise IndexError)
    /\ ((exists d, ObjectID.as_der o = Ok d)
        <-> exists a b rest,
              ObjectID.oid o = a :: b :: rest
              /\ 0 <= 40 * a + b <= 255
              /\ Forall (fun n => 0 <= n) rest
              /\ fits (ObjectID.content o)).
Proof.
  intros o. unfold ObjectID.as_der, ObjectID.content. split.
  - destruct (ObjectID.oid o) as [|a [|b rest]]; cbn [List.length];
      [reflexivity|reflexivity|lia].
  - split.
    + intros (d & H). apply bind_ok in H as (buf & Hc & H).
      apply bind_ok in H as (prefix & Hp & _).
      destruct (ObjectID.oid o) as [|a [|b rest]]; try discriminate.
      exists a, b, rest. split; [reflexivity|].
      apply bind_ok in Hc as (first & Hf & Hc).
      apply bind_ok in Hc as (tl & Ht & Hc).
      split; [apply mk_byte_inv in Hf; lia|].
      split; [eapply encode_arcs_ok_inv; eassumption|].
      rewrite Hf, Ht. cbn [bind fits]. injection Hc as <-.
      apply encode_len_ok_inv in Hp. lia.
    + intros (a & b & rest & -> & Hab & Hrest & Hfits).
      rewrite mk_byte_ok in * by lia.
      destruct (encode_arcs_total rest Hrest) as (tl & Et).
      rewrite Et in *. cbn [bind fits] in *.
      destruct (encode_len_total (len (byte_of (40 * a + b) :: tl))) as (p & Ep);
        [split; [apply len_nonneg|assumption]|].
      rewrite Ep. cbn [bind]. eauto.
Qed.

(** X12.  Whatever [ObjectID.from_der] returns lies in the encoder's arc
    domain: at least two arcs, the first one 0, 1 or 2, the second one below
    40 under a first arc 0 or 1, [40 * first + second <= 255], no negative
    arc; the name is absent, and the remainder is a proper suffix of the
    input, at least three octets shorter. *)
Theorem objectid_from_der_range :
  forall (b trailing : bytes) (o : ObjectID.t),
    ObjectID.from_der b = Ok (o, trailing) ->
    encodable_arcs (ObjectID.oid o)
    /\ ObjectID.name o = None
    /\ exists consumed,
         b = consumed ++ trailing /\ (3 <= List.length consumed)%nat.
Proof.
  intros b trailing o H. unfold ObjectID.from_der in H.
  apply bind_ok in H as ([content rem] & He & H).
  destruct content as [|c content]; [discriminate|].
  apply bind_ok in H as (rest & Hr & H). injection H as <- <-.
  cbn [ObjectID.oid ObjectID.name encodable_arcs].
  pose proof (bv_range c) as Hc.
  pose proof (Z.div_mod (bv c) 40 ltac:(lia)) as Hdm.
  pose proof (Z.mod_pos_bound (bv c) 40 ltac:(lia)) as Hm.
  assert (Hq : 0 <= bv c / 40) by (apply Z.div_pos; lia).
  split; [|split; [reflexivity|]].
  - repeat split; try lia.
    eapply decode_arcs_nonneg. eassumption.
  - pose proof (enter_consumes _ _ _ _ He) as Hlen.
    destruct b as [|b0 b]; [discriminate|]. cbn [enter] in He.
    apply bind_ok in He as (u & _ & He). rewrite drop_1_cons in He.
    apply bind_ok in He as ([[n lb] buf] & Hd & He).
    injection He as Hc1 Hc2.
    apply decode_len_split in Hd as [-> _].
    exists (b0 :: lb ++ take n buf). split.
    + cbn [app]. rewrite <- app_assoc, <- Hc2, take_drop. reflexivity.
    + rewrite <- Hc2 in Hlen. cbn [List.length] in *.
      rewrite !length_app in *. rewrite Hc1. cbn [List.length].
      pose proof (take_drop n buf) as Htd.
      apply (f_equal (@List.length byte)) in Htd. rewrite length_app in Htd.
      rewrite Hc1 in Htd. cbn [List.length] in Htd. lia.
Qed.

Lemma objectid_from_der_range_sample :
  encodable_arcs [2; 56; 55]
  /\ @None string = None
  /\ exists consumed,
       [x06; x02; x88; x37; x03] = consumed ++ [x03]
       /\ (3 <= List.length consumed)%nat.
Proof.
  apply (objectid_from_der_range [x06; x02; x88; x37; x03] [x03]
           (ObjectID.mk None [2; 56; 55])).
  reflexivity.
Defined.

(** *** Extensions and identifier lists *)

(** X13.  For an inner value whose encoding is shorter than 128 octets,
    [CertExtension.as_der] is the DER encoding: a SEQUENCE, framed by
    [_encode_len], of the identifier, the BOOLEAN TRUE 01 01 FF only when
    [critical] is set, and the DER OCTET STRING of the inner encoding. *)
Theorem cert_extension_short_inner_is_der :
  forall (E : Type) (ser : DerSerializable E) (self : CertExtension.t E)
         (id_der inner : bytes),
    ObjectID.as_der (CertExtension.ext_id self) = Ok id_der ->
    as_der (CertExtension.extension self) = Ok inner ->
    len inner < 128 ->
    exists octets,
      der_octet_string inner = Ok octets
      /\ octets = x04 :: byte_of (len inner) :: inner
      /\ CertExtension.as_der self
         = (let buf := id_der
                       ++ (if CertExtension.critical self
                           then [x01; x01; xff] else [])
                       ++ octets in
            prefix <- _encode_len (len buf) ;;
            Ok (x30 :: prefix ++ buf)).
Proof.
  intros E ser self id_der inner Hid Hinner Hshort.
  pose proof (len_nonneg inner) as Hnn.
  exists (x04 :: byte_of (len inner) :: inner).
  split; [unfold der_octet_string; rewrite encode_len_short by lia; reflexivity|].
  split; [reflexivity|].
  unfold CertExtension.as_der. rewrite Hid. cbn [bind]. rewrite Hinner.
  cbn [bind]. rewrite encode_int_small by lia. cbn [bind app].
  rewrite <- app_assoc. reflexivity.
Qed.

Lemma cert_extension_short_inner_sample :
  exists octets,
    der_octet_string [x30; x05; x06; x03; x55; x1d; x25] = Ok octets
    /\ octets = x04 :: byte_of (len [x30; x05; x06; x03; x55; x1d; x25])
                :: [x30; x05; x06; x03; x55; x1d; x25]
    /\ CertExtension.as_der
         (CertExtension.mk extKeyUsage false (ExtendedKeyUsages.mk [extKeyUsage]))
       = (let buf := [x06; x03; x55; x1d; x25] ++ [] ++ octets in
          prefix <- _encode_len (len buf) ;;
          Ok (x30 :: prefix ++ buf)).
Proof.
  apply (cert_extension_short_inner_is_der ExtendedKeyUsages.t _
           (CertExtension.mk extKeyUsage false (ExtendedKeyUsages.mk [extKeyUsage]))
           [x06; x03; x55; x1d; x25] [x30; x05; x06; x03; x55; x1d; x25]);
    reflexivity.
Defined.

(** X14.  [ExtendedKeyUsages.as_der] on encodable identifiers returns one
    complete SEQUENCE element; its content is the identifiers' encodings in
    order, which the identifier-list decoder reads back to the same arcs in
    the same order, leaving what follows the element untouched. *)
Theorem extended_key_usages_encoding :
  forall (oids : list ObjectID.t) (rest : bytes),
    encodable_oids oids ->
    exists d buf,
      ExtendedKeyUsages.as_der (ExtendedKeyUsages.mk oids) = Ok d
      /\ complete_element x30 d
      /\ extend_oids oids = Ok buf
      /\ enter 0x30 (d ++ rest) = Ok (buf, rest)
      /\ OpenSSLCertAux.decode_oids (List.length buf) buf = Ok (map anonymous oids).
Proof.
  intros oids rest H.
  destruct (encode_oids_shape oids x30 H) as (p & buf & Eb & Ep & _ & Hdec).
  exists (x30 :: p ++ buf), buf.
  split; [unfold ExtendedKeyUsages.as_der; cbn [ExtendedKeyUsages.oids];
          rewrite Eb; cbn [bind]; rewrite Ep; reflexivity|].
  split; [apply encoded_element_complete; assumption|].
  split; [assumption|]. split; [|assumption].
  cbn [app]. rewrite <- app_assoc. change 0x30 with (bv x30).
  apply enter_complete. intros r.
  apply decode_encode_len; [apply len_nonneg|assumption].
Qed.

Lemma extended_key_usages_encoding_sample :
  exists d buf,
    ExtendedKeyUsages.as_der (ExtendedKeyUsages.mk [serverAuth; emailProtection]) = Ok d
    /\ complete_element x30 d
    /\ extend_oids [serverAuth; emailProtection] = Ok buf
    /\ enter 0x30 (d ++ [xff]) = Ok (buf, [xff])
    /\ OpenSSLCertAux.decode_oids (List.length buf) buf
       = Ok (map anonymous [serverAuth; emailProtection]).
Proof.
  apply (extended_key_usages_encoding [serverAuth; emailProtection] [xff]).
  unfold encodable_oids, encodable_oid.
  repeat first
    [ apply Forall_nil | apply Forall_cons | split | lia
    | progress cbn [encodable_arcs ObjectID.oid serverAuth emailProtection]
    | (vm_compute; reflexivity) ].
Defined.

(** *** OpenSSLCertAux *)

(** X15.  [OpenSSLCertAux.from_der] inverts [as_der] on every encodable
    structure, with or without reject identifiers: it returns the same trust
    and reject arcs in the same order (names dropped) and hands back
    untouched whatever follows the encoding.  With an empty reject list the
    content of the encoding is the trust list's element alone. *)
Theorem openssl_cert_aux_round_trip :
  forall (aux : OpenSSLCertAux.t) (rem : bytes),
    encodable_aux aux ->
    exists d,
      OpenSSLCertAux.as_der aux = Ok d
      /\ OpenSSLCertAux.from_der (d ++ rem)
         = Ok (OpenSSLCertAux.mk (map anonymous (OpenSSLCertAux.trust aux))
                                 (map anonymous (OpenSSLCertAux.reject aux)), rem)
      /\ (OpenSSLCertAux.reject aux = [] ->
          OpenSSLCertAux.content aux
          = OpenSSLCertAux.encode_oids (OpenSSLCertAux.trust aux) x30).
Proof.
  intros aux rem H. destruct (aux_roundtrip aux H) as (d & Ed & Hdec).
  exists d. split; [assumption|]. split; [apply Hdec|].
  intros Hr. unfold OpenSSLCertAux.content. rewrite Hr.
  destruct (OpenSSLCertAux.encode_oids _ _); cbn [bind];
    [rewrite app_nil_r|]; reflexivity.
Qed.

Lemma openssl_cert_aux_round_trip_sample :
  exists d,
    OpenSSLCertAux.as_der sample_aux = Ok d
    /\ OpenSSLCertAux.from_der (d ++ [xff])
       = Ok (OpenSSLCertAux.mk (map anonymous (OpenSSLCertAux.trust sample_aux))
                               (map anonymous (OpenSSLCertAux.reject sample_aux)),
             [xff])
    /\ (OpenSSLCertAux.reject sample_aux = [] ->
        OpenSSLCertAux.content sample_aux
        = OpenSSLCertAux.encode_oids (OpenSSLCertAux.trust sample_aux) x30).
Proof.
  apply (openssl_cert_aux_round_trip sample_aux [xff]).
  unfold encodable_aux, encodable_oids, encodable_oid.
  repeat first
    [ apply Forall_nil | apply Forall_cons | split | lia
    | progress cbn [encodable_arcs ObjectID.oid serverAuth emailProtection
                    sample_aux OpenSSLCertAux.trust OpenSSLCertAux.reject]
    | (vm_compute; reflexivity) ].
Defined.

(** X16.  Inside the outer SEQUENCE, [OpenSSLCertAux.from_der] looks at what
    follows the trust list only to test its first octet for 0xA0: any other
    bytes there are accepted and ignored, and the reject list comes back
    empty. *)
Theorem openssl_cert_aux_ignores_stray_content :
  forall (trust : list ObjectID.t) (trust_der junk lb rem : bytes),
    encodable_oids trust ->
    OpenSSLCertAux.encode_oids trust x30 = Ok trust_der ->
    (forall j0 tl, junk = j0 :: tl -> bv j0 <> 0xA0) ->
    _encode_len (len (trust_der ++ junk)) = Ok lb ->
    OpenSSLCertAux.from_der (x30 :: lb ++ (trust_der ++ junk) ++ rem)
    = Ok (OpenSSLCertAux.mk (map anonymous trust) [], rem).
Proof.
  intros trust trust_der junk lb rem Ht Et Hjunk Hlb.
  destruct (encode_oids_shape trust x30 Ht) as (p & buf & Eb & Ep & Et' & Hdec).
  rewrite Et in Et'. injection Et' as ->.
  unfold OpenSSLCertAux.from_der. change 0x30 with (bv x30).
  rewrite enter_complete
    by (intros r; apply decode_encode_len; [apply len_nonneg|assumption]).
  cbn [bind app]. rewrite <- app_assoc.
  rewrite (enter_complete x30 p buf junk)
    by (intros r; apply decode_encode_len; [apply len_nonneg|assumption]).
  cbn [bind]. rewrite Hdec. cbn [bind].
  destruct junk as [|j0 tl]; [reflexivity|].
  destruct (Z.eqb_spec (bv j0) 0xA0) as [E|_]; [|reflexivity].
  exfalso. exact (Hjunk j0 tl eq_refl E).
Qed.

Lemma openssl_cert_aux_ignores_stray_content_sample :
  OpenSSLCertAux.from_der
    (x30 :: [x0e] ++ ([x30; x0a; x06; x08; x2b; x06; x01; x05; x05; x07; x03; x01]
                      ++ [x05; x00]) ++ [xff])
  = Ok (OpenSSLCertAux.mk (map anonymous [serverAuth]) [], [xff]).
Proof.
  apply (openssl_cert_aux_ignores_stray_content [serverAuth]).
  - unfold encodable_oids, encodable_oid.
    repeat first
      [ apply Forall_nil | apply Forall_cons | split | lia
      | progress cbn [encodable_arcs ObjectID.oid serverAuth]
      | (vm_compute; reflexivity) ].
  - reflexivity.
  - intros j0 tl H. injection H as <- _. now vm_compute.
  - reflexivity.
Defined.

(** *** TBSCertificate and Certificate on well-formed input *)

Lemma expect_complete (tag : byte) (e rest : bytes) :
  complete_element tag e ->
  TBSCertificate.expect (bv tag) (e ++ rest) = Ok (e, rest).
Proof.
  intros H. unfold TBSCertificate.expect.
  rewrite (dumb_decode_complete tag e rest H). cbn [bind].
  rewrite Z.eqb_refl. reflexivity.
Qed.

Lemma version_and_serial_complete (version : option bytes) (serial rest : bytes) :
  optional_element xa0 version ->
  complete_element x02 serial ->
  TBSCertificate.version_and_serial (span version ++ serial ++ rest)
  = Ok (version, serial, rest).
Proof.
  intros Hv Hs. unfold TBSCertificate.version_and_serial.
  destruct version as [v|]; cbn [span optional_element] in *.
  - rewrite (dumb_decode_complete xa0 v _ Hv). cbn [bind].
    change (bv xa0 =? 0xA0) with true. cbv iota.
    change 0x02 with (bv x02). rewrite (expect_complete x02 serial rest Hs).
    reflexivity.
  - cbn [app]. rewrite (dumb_decode_complete x02 serial rest Hs). reflexivity.
Qed.

(** X17.  [TBSCertificate.from_der] reads a well-formed TBSCertificate field
    by field: given the optional version (0xA0), the serial number (0x02),
    the five SEQUENCE fields (0x30) and the optional issuerUniqueID (0xA1),
    subjectUniqueID (0xA2) and extensions (0xA3), each a complete element,
    framed by [_encode_len], it returns exactly these spans (an absent
    optional field as absent) and, untouched, what follows the SEQUENCE. *)
Theorem tbs_certificate_decodes_fields :
  forall (t : TBSCertificate.t) (lb rem : bytes),
    optional_element xa0 (TBSCertificate.version t) ->
    complete_element x02 (TBSCertificate.serial_number t) ->
    complete_element x30 (TBSCertificate.signature t) ->
    complete_element x30 (TBSCertificate.issuer t) ->
    complete_element x30 (TBSCertificate.validity t) ->
    complete_element x30 (TBSCertificate.subject t) ->
    complete_element x30 (TBSCertificate.subject_public_key_info t) ->
    optional_element xa1 (TBSCertificate.issuer_unique_id t) ->
    optional_element xa2 (TBSCertificate.subject_unique_id t) ->
    optional_element xa3 (TBSCertificate.extensions t) ->
    _encode_len (len (all_spans t)) = Ok lb ->
    TBSCertificate.from_der (x30 :: lb ++ all_spans t ++ rem) = Ok (t, rem).
Proof.
  intros [serial sig iss val sub spki version iu su ex] lb rem.
  cbn [TBSCertificate.version TBSCertificate.serial_number
       TBSCertificate.signature TBSCertificate.issuer TBSCertificate.validity
       TBSCertificate.subject TBSCertificate.subject_public_key_info
       TBSCertificate.issuer_unique_id TBSCertificate.subject_unique_id
       TBSCertificate.extensions].
  intros Hv Hs H1 H2 H3 H4 H5 Hiu Hsu Hex Hlb.
  unfold TBSCertificate.from_der. change 0x30 with (bv x30).
  rewrite enter_complete
    by (intros r; apply decode_encode_len; [apply len_nonneg|assumption]).
  cbn [bind]. unfold all_spans, leading_spans, trailing_spans.
  cbn [TBSCertificate.version TBSCertificate.serial_number
       TBSCertificate.signature TBSCertificate.issuer TBSCertificate.validity
       TBSCertificate.subject TBSCertificate.subject_public_key_info
       TBSCertificate.issuer_unique_id TBSCertificate.subject_unique_id
       TBSCertificate.extensions].
  rewrite <- !app_assoc.
  rewrite (version_and_serial_complete version serial _ Hv Hs). cbn [bind].
  rewrite (expect_complete x30 sig _ H1). cbn [bind].
  rewrite (expect_complete x30 iss _ H2). cbn [bind].
  rewrite (expect_complete x30 val _ H3). cbn [bind].
  rewrite (expect_complete x30 sub _ H4). cbn [bind].
  rewrite (expect_complete x30 spki _ H5). cbn [bind].
  rewrite (optional_fields_recorded iu su ex Hiu Hsu Hex). reflexivity.
Qed.

Ltac prove_complete lb v :=
  exists lb, v; split; [reflexivity|intros ?rest; reflexivity].

Lemma tbs_certificate_decodes_fields_sample :
  TBSCertificate.from_der ([x30; x18] ++ all_spans tbs_all_fields ++ [xff])
  = Ok (tbs_all_fields, [xff]).
Proof.
  apply (tbs_certificate_decodes_fields tbs_all_fields [x18] [xff]).
  - prove_complete [x03] [x02; x01; x02].
  - prove_complete [x01] [x01].
  - prove_complete [x00] (@nil byte).
  - prove_complete [x00] (@nil byte).
  - prove_complete [x00] (@nil byte).
  - prove_complete [x00] (@nil byte).
  - prove_complete [x00] (@nil byte).
  - prove_complete [x00] (@nil byte).
  - prove_complete [x00] (@nil byte).
  - prove_complete [x00] (@nil byte).
  - reflexivity.
Defined.

(** X18.  [TBSCertificate.from_der] hands back untouched whatever follows a
    complete TBSCertificate SEQUENCE it accepts: the decoded fields do not
    depend on the bytes after the element. *)
Theorem tbs_certificate_remainder :
  forall (tbs_der : bytes) (tbs : TBSCertificate.t) (extra : bytes),
    complete_element x30 tbs_der ->
    TBSCertificate.from_der tbs_der = Ok (tbs, []) ->
    TBSCertificate.from_der (tbs_der ++ extra) = Ok (tbs, extra).
Proof. intros tbs_der tbs extra Hc Ha. apply tbs_framing; assumption. Qed.

Lemma tbs_certificate_remainder_sample :
  TBSCertificate.from_der (sample_tbs_der ++ [x30; x00]) = Ok (sample_tbs, [x30; x00]).
Proof.
  apply (tbs_certificate_remainder sample_tbs_der sample_tbs [x30; x00]).
  - prove_complete [x0d] sample_tbs_content.
  - reflexivity.
Defined.

Lemma dumb_decode_span_tag (i : bytes) (tag : byte) (e rest : bytes) :
  _dumb_decode i = Ok ((tag, e), rest) -> exists tl, e = tag :: tl.
Proof.
  intros H. destruct (dumb_decode_span_shape i tag e rest H)
    as (l0 & tl & ->). eauto.
Qed.

Lemma expect_span_tag (tag : byte) (b e r : bytes) :
  TBSCertificate.expect (bv tag) b = Ok (e, r) -> exists tl, e = tag :: tl.
Proof.
  unfold TBSCertificate.expect. intros H.
  apply bind_ok in H as ([[t d] b'] & Hd & H).
  apply bind_ok in H as (u & Ha & H). injection H as <- <-.
  apply assert_ok, Z.eqb_eq, bv_inj in Ha. subst t.
  eapply dumb_decode_span_tag. eassumption.
Qed.

Lemma advance_tagged (c c' : TBSCertificate.cursor) :
  cursor_tagged c -> TBSCertificate.advance c = Ok c' -> cursor_tagged c'.
Proof.
  intros Hc. unfold TBSCertificate.advance.
  destruct (snd c) as [|x r]; intros H; [injection H as <-; assumption|].
  destruct c' as [[t e] r']. unfold cursor_tagged. cbn [fst snd].
  eapply dumb_decode_span_tag. eassumption.
Qed.

Lemma optional_field_tagged (tag : byte) (c c' : TBSCertificate.cursor)
      (f : option bytes) :
  cursor_tagged c ->
  TBSCertificate.optional_field (bv tag) c = Ok (f, c') ->
  cursor_tagged c' /\ forall e, f = Some e -> exists tl, e = tag :: tl.
Proof.
  intros Hc H. apply optional_field_cases in H.
  destruct H as [(_ & -> & ->)|(Ht & -> & Ha)].
  - split; [assumption|discriminate].
  - split; [eapply advance_tagged; eassumption|].
    intros e He. injection He as <-. apply bv_inj in Ht.
    destruct Hc as (tl & Hc). rewrite Hc, Ht. eauto.
Qed.

(** X19.  Every span [TBSCertificate.from_der] captures starts with the tag
    of its position: 0x02 for the serial number, 0x30 for signature, issuer,
    validity, subject and subjectPublicKeyInfo, and 0xA0, 0xA1, 0xA2, 0xA3
    for a version, issuerUniqueID, subjectUniqueID and extensions that are
    present. *)
Theorem tbs_certificate_span_tags :
  forall (b : bytes) (t : TBSCertificate.t) (rem : bytes),
    TBSCertificate.from_der b = Ok (t, rem) ->
    (exists tl, TBSCertificate.serial_number t = x02 :: tl)
    /\ (exists tl, TBSCertificate.signature t = x30 :: tl)
    /\ (exists tl, TBSCertificate.issuer t = x30 :: tl)
    /\ (exists tl, TBSCertificate.validity t = x30 :: tl)
    /\ (exists tl, TBSCertificate.subject t = x30 :: tl)
    /\ (exists tl, TBSCertificate.subject_public_key_info t = x30 :: tl)
    /\ (forall e, TBSCertificate.version t = Some e -> exists tl, e = xa0 :: tl)
    /\ (forall e, TBSCertificate.issuer_unique_id t = Some e ->
                  exists tl, e = xa1 :: tl)
    /\ (forall e, TBSCertificate.subject_unique_id t = Some e ->
                  exists tl, e = xa2 :: tl)
    /\ (forall e, TBSCertificate.extensions t = Some e ->
                  exists tl, e = xa3 :: tl).
Proof.
  intros b t rem H. unfold TBSCertificate.from_der in H.
  apply bind_ok in H as ([content rem'] & _ & H).
  apply bind_ok in H as ([[v s] b1] & Hv & H).
  apply bind_ok in H as ([sg b2] & H2 & H).
  apply bind_ok in H as ([iss b3] & H3 & H).
  apply bind_ok in H as ([val b4] & H4 & H).
  apply bind_ok in H as ([sub b5] & H5 & H).
  apply bind_ok in H as ([spki b6] & H6 & H).
  apply bind_ok in H as ([[iu su] ex] & Ho & H).
  injection H as <- _.
  cbn [TBSCertificate.version TBSCertificate.serial_number
       TBSCertificate.signature TBSCertificate.issuer TBSCertificate.validity
       TBSCertificate.subject TBSCertificate.subject_public_key_info
       TBSCertificate.issuer_unique_id TBSCertificate.subject_unique_id
       TBSCertificate.extensions].
  change 0x30 with (bv x30) in *.
  apply expect_span_tag in H2, H3, H4, H5, H6.
  assert (Hvs : (exists tl, s = x02 :: tl)
                /\ forall e, v = Some e -> exists tl, e = xa0 :: tl).
  { unfold TBSCertificate.version_and_serial in Hv.
    apply bind_ok in Hv as ([[tag d] b'] & Hd & Hv).
    apply dumb_decode_span_tag in Hd as (tl & ->).
    destruct (Z.eqb_spec (bv tag) 0xA0) as [Et|_].
    - apply bind_ok in Hv as ([s' r'] & He & Hv). injection Hv as <- <- _.
      change 0x02 with (bv x02) in He. apply expect_span_tag in He.
      split; [assumption|]. intros e He'. injection He' as <-.
      change 0xA0 with (bv xa0) in Et. apply bv_inj in Et. subst. eauto.
    - apply bind_ok in Hv as (u & Ha & Hv). injection Hv as <- <- _.
      apply assert_ok, Z.eqb_eq in Ha. change 0x02 with (bv x02) in Ha.
      apply bv_inj in Ha. subst. split; [eauto|discriminate]. }
  assert (Hopt : (forall e, iu = Some e -> exists tl, e = xa1 :: tl)
                 /\ (forall e, su = Some e -> exists tl, e = xa2 :: tl)
                 /\ (forall e, ex = Some e -> exists tl, e = xa3 :: tl)).
  { unfold TBSCertificate.optional_fields in Ho.
    destruct b6 as [|x b6];
      [injection Ho as <- <- <-; repeat split; discriminate|].
    apply bind_ok in Ho as ([[t0 e0] r0] & Hd & Ho).
    apply dumb_decode_span_tag in Hd.
    assert (Hc0 : cursor_tagged ((t0, e0), r0)) by exact Hd.
    apply bind_ok in Ho as ([iu' c1] & F1 & Ho).
    apply bind_ok in Ho as ([su' c2] & F2 & Ho).
    apply bind_ok in Ho as ([ex' c3] & F3 & Ho).
    injection Ho as <- <- <-.
    change 0xA1 with (bv xa1) in F1. change 0xA2 with (bv xa2) in F2.
    change 0xA3 with (bv xa3) in F3.
    destruct (optional_field_tagged _ _ _ _ Hc0 F1) as [Hc1 G1].
    destruct (optional_field_tagged _ _ _ _ Hc1 F2) as [Hc2 G2].
    destruct (optional_field_tagged _ _ _ _ Hc2 F3) as [_ G3].
    auto. }
  destruct Hvs as [Hs Hver]. destruct Hopt as (G1 & G2 & G3).
  repeat split; assumption.
Qed.

Lemma tbs_certificate_span_tags_sample :
  (exists tl, TBSCertificate.serial_number tbs_all_fields = x02 :: tl)
  /\ (exists tl, TBSCertificate.signature tbs_all_fields = x30 :: tl)
  /\ (exists tl, TBSCertificate.issuer tbs_all_fields = x30 :: tl)
  /\ (exists tl, TBSCertificate.validity tbs_all_fields = x30 :: tl)
  /\ (exists tl, TBSCertificate.subject tbs_all_fields = x30 :: tl)
  /\ (exists tl, TBSCertificate.subject_public_key_info tbs_all_fields = x30 :: tl)
  /\ (forall e, TBSCertificate.version tbs_all_fields = Some e ->
                exists tl, e = xa0 :: tl)
  /\ (forall e, TBSCertificate.issuer_unique_id tbs_all_fields = Some e ->
                exists tl, e = xa1 :: tl)
  /\ (forall e, TBSCertificate.subject_unique_id tbs_all_fields = Some e ->
                exists tl, e = xa2 :: tl)
  /\ (forall e, TBSCertificate.extensions tbs_all_fields = Some e ->
                exists tl, e = xa3 :: tl).
Proof.
  apply (tbs_certificate_span_tags tbs_der_all_fields tbs_all_fields []).
  reflexivity.
Defined.

(** X20.  [Certificate.from_der] reads a well-formed Certificate: given a
    complete TBSCertificate SEQUENCE the TBS decoder accepts, a complete
    signatureAlgorithm SEQUENCE (0x30) and a complete signatureValue BIT
    STRING (0x03), framed by [_encode_len], it returns the decoded
    TBSCertificate with the two spans as captured and, untouched, what
    follows the outer SEQUENCE. *)
Theorem certificate_decodes_fields :
  forall (tbs_der sa sv lb rem : bytes) (tbs : TBSCertificate.t),
    complete_element x30 tbs_der ->
    TBSCertificate.from_der tbs_der = Ok (tbs, []) ->
    complete_element x30 sa ->
    complete_element x03 sv ->
    _encode_len (len (tbs_der ++ sa ++ sv)) = Ok lb ->
    Certificate.from_der (x30 :: lb ++ (tbs_der ++ sa ++ sv) ++ rem)
    = Ok (Certificate.mk tbs sa sv, rem).
Proof.
  intros tbs_der sa sv lb rem tbs Htbs Hacc Hsa Hsv Hlb.
  unfold Certificate.from_der. change 0x30 with (bv x30) at 1.
  rewrite enter_complete
    by (intros r; apply decode_encode_len; [apply len_nonneg|assumption]).
  cbn [bind]. rewrite (tbs_framing tbs_der tbs Htbs Hacc). cbn [bind].
  rewrite (dumb_decode_complete x30 sa _ Hsa). cbn [bind].
  change (bv x30 =? 0x30) with true. cbn [py_assert bind].
  pose proof (dumb_decode_complete x03 sv [] Hsv) as Hd.
  rewrite app_nil_r in Hd. rewrite Hd. reflexivity.
Qed.

Lemma certificate_decodes_fields_sample :
  Certificate.from_der
    (x30 :: [x14] ++ (sample_tbs_der ++ [x30; x00] ++ [x03; x01; x00]) ++ [xff])
  = Ok (Certificate.mk sample_tbs [x30; x00] [x03; x01; x00], [xff]).
Proof.
  apply (certificate_decodes_fields sample_tbs_der [x30; x00] [x03; x01; x00]
           [x14] [xff] sample_tbs).
  - prove_complete [x0d] sample_tbs_content.
  - reflexivity.
  - prove_complete [x00] (@nil byte).
  - prove_complete [x01] [x00].
  - reflexivity.
Defined.

(** *** Byte accounting of the structural decoders *)

Lemma enter_frame (tag : Z) (b content rem : bytes) :
  enter tag b = Ok (content, rem) ->
  exists header, b = header ++ content ++ rem.
Proof.
  destruct b as [|b0 b]; [discriminate|]. cbn [enter]. rewrite drop_1_cons.
  intros H. apply bind_ok in H as (u & _ & H).
  apply bind_ok in H as ([[n lb] buf] & Hd & H). injection H as <- <-.
  apply decode_len_split in Hd as [-> _].
  exists (b0 :: lb). cbn [app]. rewrite take_drop. reflexivity.
Qed.

Lemma certificate_from_der_frame (b rem : bytes) (c : Certificate.t) :
  Certificate.from_der b = Ok (c, rem) -> exists consumed, b = consumed ++ rem.
Proof.
  unfold Certificate.from_der. intros H.
  apply bind_ok in H as ([content rem'] & He & H).
  apply enter_frame in He as (header & ->).
  apply bind_ok in H as ([tbs b1] & _ & H).
  apply bind_ok in H as ([[t1 sa] b2] & _ & H).
  apply bind_ok in H as (u1 & _ & H).
  apply bind_ok in H as ([[t2 sv] b3] & _ & H).
  apply bind_ok in H as (u2 & _ & H).
  apply bind_ok in H as (u3 & _ & H). injection H as _ <-.
  exists (header ++ content). rewrite <- app_assoc. reflexivity.
Qed.

Lemma aux_from_der_frame (b rem : bytes) (aux : OpenSSLCertAux.t) :
  OpenSSLCertAux.from_der b = Ok (aux, rem) -> exists consumed, b = consumed ++ rem.
Proof.
  unfold OpenSSLCertAux.from_der. intros H.
  apply bind_ok in H as ([content rem'] & He & H).
  apply enter_frame in He as (header & ->).
  apply bind_ok in H as ([trust_b b1] & _ & H).
  apply bind_ok in H as (trust & _ & H).
  apply bind_ok in H as (reject & _ & H). injection H as _ <-.
  exists (header ++ content). rewrite <- app_assoc. reflexivity.
Qed.

(** X21.  [parse_trusted_certificate] splits the block's content without
    losing an octet: whenever it returns, the block is labelled TRUSTED
    CERTIFICATE and its content is the certificate bytes returned, then the
    bytes of the auxiliary structure, then the remainder returned; the
    certificate decoder accepted the content and left the last two parts,
    from which the auxiliary decoder left the remainder. *)
Theorem parse_trusted_certificate_accounts_for_content :
  forall (pb : PEMBlock.t) (cert_bytes trailing : bytes) (aux : OpenSSLCertAux.t),
    parse_trusted_certificate pb = Ok (cert_bytes, aux, trailing) ->
    PEMBlock.name pb = "TRUSTED CERTIFICATE"%string
    /\ exists (c : Certificate.t) (aux_bytes : bytes),
         PEMBlock.content pb = cert_bytes ++ aux_bytes ++ trailing
         /\ Certificate.from_der (PEMBlock.content pb) = Ok (c, aux_bytes ++ trailing)
         /\ OpenSSLCertAux.from_der (aux_bytes ++ trailing) = Ok (aux, trailing).
Proof.
  intros pb cert_bytes trailing aux H. unfold parse_trusted_certificate in H.
  apply bind_ok in H as (u & Hn & H). apply assert_ok, String.eqb_eq in Hn.
  split; [assumption|].
  apply bind_ok in H as ([c t1] & Hc & H).
  apply bind_ok in H as ([aux' t2] & Ha & H). injection H as <- <- <-.
  destruct (certificate_from_der_frame _ _ _ Hc) as (consumed & Econtent).
  destruct (aux_from_der_frame _ _ _ Ha) as (aux_bytes & ->).
  exists c, aux_bytes. rewrite Econtent in *.
  rewrite len_app.
  replace (len consumed + len (aux_bytes ++ t2) - len (aux_bytes ++ t2))
    with (len consumed) by lia.
  rewrite take_app_exact. auto.
Qed.

Lemma parse_trusted_certificate_accounts_sample :
  PEMBlock.name (PEMBlock.mk "TRUSTED CERTIFICATE"
                   (sample_cert_der ++ [x30; x02; x30; x00; xff]))
  = "TRUSTED CERTIFICATE"%string
  /\ exists (c : Certificate.t) (aux_bytes : bytes),
       PEMBlock.content (PEMBlock.mk "TRUSTED CERTIFICATE"
                           (sample_cert_der ++ [x30; x02; x30; x00; xff]))
       = sample_cert_der ++ aux_bytes ++ [xff]
       /\ Certificate.from_der
            (PEMBlock.content (PEMBlock.mk "TRUSTED CERTIFICATE"
                                 (sample_cert_der ++ [x30; x02; x30; x00; xff])))
          = Ok (c, aux_bytes ++ [xff])
       /\ OpenSSLCertAux.from_der (aux_bytes ++ [xff])
          = Ok (OpenSSLCertAux.mk [] [], [xff]).
Proof.
  apply (parse_trusted_certificate_accounts_for_content
           (PEMBlock.mk "TRUSTED CERTIFICATE"
              (sample_cert_der ++ [x30; x02; x30; x00; xff]))
           sample_cert_der [xff] (OpenSSLCertAux.mk [] [])).
  reflexivity.
Defined.

(** *** The PEM stream decoder on complete and cut-off blocks *)

Lemma append_nil_r (s : string) : (s ++ "")%string = s.
Proof. induction s as [|c s IH]; cbn; [reflexivity|rewrite IH; reflexivity]. Qed.

Lemma append_assoc (a b c : string) :
  ((a ++ b) ++ c)%string = (a ++ b ++ c)%string.
Proof. induction a as [|x a IH]; cbn; [reflexivity|rewrite IH; reflexivity]. Qed.

Lemma concat_cons (ln : string) (lns : list string) :
  String.concat "" (ln :: lns) = (ln ++ String.concat "" lns)%string.
Proof.
  destruct lns as [|l lns]; cbn [String.concat].
  - symmetry. apply append_nil_r.
  - reflexivity.
Qed.

Lemma concat_app (a b : list string) :
  String.concat "" (a ++ b)%list
  = (String.concat "" a ++ String.concat "" b)%string.
Proof.
  induction a as [|ln a IH]; [reflexivity|].
  cbn [app]. rewrite !concat_cons, IH, append_assoc. reflexivity.
Qed.

Lemma list_ascii_of_string_app (a b : string) :
  list_ascii_of_string (a ++ b)
  = (list_ascii_of_string a ++ list_ascii_of_string b)%list.
Proof. induction a as [|x a IH]; cbn; [reflexivity|rewrite IH; reflexivity]. Qed.

Lemma scan_end_found (name : string) (body rest bits : list string)
      (end_line : string) (v : PEMBlock.local bool) :
  Forall (fun ln => PEMBlock.end_match name ln = false) body ->
  PEMBlock.end_match name end_line = true ->
  PEMBlock.scan_end name (body ++ end_line :: rest) bits v
  = (PEMBlock.Bound true, (bits ++ body)%list, rest).
Proof.
  intros H He. revert bits v.
  induction H as [|ln body Hln _ IH]; intros bits v; cbn [app PEMBlock.scan_end].
  - rewrite He, app_nil_r. reflexivity.
  - rewrite Hln, IH, <- app_assoc. reflexivity.
Qed.

Lemma scan_begin_inv (fp : list string) :
  forall prefix label prefix' rest,
    PEMBlock.scan_begin fp prefix = (Some label, prefix', rest) ->
    exists pre begin_line,
      fp = (pre ++ begin_line :: rest)%list
      /\ prefix' = (prefix ++ pre)%list
      /\ Forall (fun ln => PEMBlock.begin_match ln = None) pre
      /\ PEMBlock.begin_match begin_line = Some label.
Proof.
  induction fp as [|ln fp IH]; intros prefix label prefix' rest;
    cbn [PEMBlock.scan_begin]; [discriminate|].
  destruct (PEMBlock.begin_match ln) as [l|] eqn:Eb; intros H.
  - injection H as <- <- <-. exists [], ln.
    rewrite app_nil_r. repeat split; [constructor|assumption].
  - apply IH in H as (pre & bl & -> & -> & Hpre & Hbl).
    exists (ln :: pre), bl. rewrite <- app_assoc.
    repeat split; [constructor; assumption|assumption].
Qed.

Lemma scan_end_inv (name : string) (fp : list string) :
  forall bits v bits' rest,
    v <> PEMBlock.Bound true ->
    PEMBlock.scan_end name fp bits v = (PEMBlock.Bound true, bits', rest) ->
    exists body end_line,
      fp = (body ++ end_line :: rest)%list
      /\ bits' = (bits ++ body)%list
      /\ Forall (fun ln => PEMBlock.end_match name ln = false) body
      /\ PEMBlock.end_match name end_line = true.
Proof.
  induction fp as [|ln fp IH]; intros bits v bits' rest Hv;
    cbn [PEMBlock.scan_end].
  - intros H. injection H as -> _ _. contradiction.
  - destruct (PEMBlock.end_match name ln) eqn:Ee; intros H.
    + injection H as <- <-. exists [], ln.
      rewrite app_nil_r. repeat split; [constructor|assumption].
    + apply IH in H as (body & el & -> & -> & Hbody & Hel); [|discriminate].
      exists (ln :: body), el. rewrite <- app_assoc.
      repeat split; [constructor; assumption|assumption].
Qed.

(** X22.  On a stream that holds a complete block, [decode_from_file]
    returns the text of the lines before the BEGIN line as the prefix, the
    BEGIN line's label as the block's name and the base64 decoding of the
    lines between the markers as its content (or raises what the base64
    decoder raises), and leaves in the stream exactly the lines after the
    END line, ready for the next call. *)
Theorem pem_decode_complete_block :
  forall (b64decode : string -> result bytes)
         (pre body rest : list string) (begin_line end_line label : string),
    Forall (fun l => PEMBlock.begin_match l = None) pre ->
    PEMBlock.begin_match begin_line = Some label ->
    Forall (fun l => PEMBlock.end_match label l = false) body ->
    PEMBlock.end_match label end_line = true ->
    PEMBlock.decode_from_file b64decode
      (pre ++ begin_line :: body ++ end_line :: rest)%list
    = (content <- b64decode (String.concat "" body) ;;
       Ok (Some (String.concat "" pre, PEMBlock.mk label content)),
       rest).
Proof.
  intros b64decode pre body rest begin_line end_line label Hpre Hb Hbody He.
  unfold PEMBlock.decode_from_file.
  rewrite (scan_begin_found pre _ [] begin_line label Hpre Hb).
  rewrite (scan_end_found label body rest [] end_line PEMBlock.Unbound Hbody He).
  reflexivity.
Qed.

Lemma pem_decode_complete_block_sample :
  PEMBlock.decode_from_file (fun _ => Ok [x01])
    (pem_no_begin ++ pem_begin_x :: ["AAAA
"%string] ++ "-----END X-----
"%string :: ["tail"%string])%list
  = (content <- (fun _ : string => Ok [x01]) (String.concat "" ["AAAA
"%string]) ;;
     Ok (Some (String.concat "" pem_no_begin, PEMBlock.mk "X" content)),
     ["tail"%string]).
Proof.
  apply (pem_decode_complete_block (fun _ => Ok [x01]) pem_no_begin).
  - repeat constructor.
  - reflexivity.
  - repeat constructor.
  - reflexivity.
Defined.

(** X23.  When the BEGIN line is the last line of the stream,
    [decode_from_file] raises [UnboundLocalError]: the second loop never
    runs, so [end_match] is read before any assignment. *)
Theorem pem_begin_at_end_of_stream :
  forall (b64decode : string -> result bytes)
         (pre : list string) (begin_line label : string),
    Forall (fun l => PEMBlock.begin_match l = None) pre ->
    PEMBlock.begin_match begin_line = Some label ->
    PEMBlock.decode_from_file b64decode (pre ++ [begin_line])%list
    = (Raise UnboundLocalError, []).
Proof.
  intros b64decode pre begin_line label Hpre Hb.
  unfold PEMBlock.decode_from_file.
  rewrite (scan_begin_found pre [] [] begin_line label Hpre Hb). reflexivity.
Qed.

Lemma pem_begin_at_end_of_stream_sample :
  PEMBlock.decode_from_file (fun _ => Ok []) (pem_no_begin ++ [pem_begin_x])%list
  = (Raise UnboundLocalError, []).
Proof.
  apply (pem_begin_at_end_of_stream (fun _ => Ok []) pem_no_begin pem_begin_x "X").
  - repeat constructor.
  - reflexivity.
Defined.

(** *** Lines of a text *)

Lemma read_lines_concat (b : string) : String.concat "" (PEMBlock.read_lines b) = b.
Proof.
  induction b as [|c b IH]; [reflexivity|]. cbn [PEMBlock.read_lines].
  destruct (Ascii.eqb c PEMBlock.newline).
  - rewrite concat_cons, IH. reflexivity.
  - destruct (PEMBlock.read_lines b) as [|ln lns].
    + cbn in IH. subst b. reflexivity.
    + rewrite concat_cons in *. cbn. rewrite IH. reflexivity.
Qed.

(** X24.  [PEMBlock.decode] accounts for every character of its input: when
    it returns a block, the input text is the prefix returned, then a line
    the BEGIN pattern matches with the block's name as label, then the body
    whose base64 decoding is the block's content, then a line the END
    pattern matches for that name, then the rest returned. *)
Theorem pem_decode_accounts_for_text :
  forall (b64decode : string -> result bytes)
         (b prefix rest : string) (block : PEMBlock.t),
    PEMBlock.decode b64decode b = Ok (Some (prefix, block, rest)) ->
    exists begin_line body end_line,
      b = (prefix ++ begin_line ++ body ++ end_line ++ rest)%string
      /\ PEMBlock.begin_match begin_line = Some (PEMBlock.name block)
      /\ PEMBlock.end_match (PEMBlock.name block) end_line = true
      /\ b64decode body = Ok (PEMBlock.content block).
Proof.
  intros b64decode b prefix rest block H.
  pose proof (read_lines_concat b) as Hb.
  unfold PEMBlock.decode, PEMBlock.decode_from_file in H.
  destruct (PEMBlock.scan_begin (PEMBlock.read_lines b) [])
    as [[[label|] prefix'] fp] eqn:Sb; [|discriminate].
  apply scan_begin_inv in Sb as (pre & bl & Efp & -> & _ & Hbl).
  destruct (PEMBlock.scan_end label fp [] PEMBlock.Unbound)
    as [[[|[|]] bits] fp'] eqn:Se; try discriminate.
  apply scan_end_inv in Se as (body & el & -> & -> & _ & Hel); [|discriminate].
  destruct (b64decode (String.concat "" ([] ++ body)%list)) as [content|e] eqn:E64;
    cbn [bind] in H; [|discriminate].
  injection H as <- <- <-.
  cbn [app] in *. exists bl, (String.concat "" body), el.
  cbn [PEMBlock.name PEMBlock.content].
  split; [|auto].
  rewrite <- Hb, Efp.
  rewrite concat_app, concat_cons, concat_app, concat_cons. reflexivity.
Qed.

Lemma pem_decode_accounts_for_text_sample :
  exists begin_line body end_line,
    ("junk
-----BEGIN X-----
QUJD
-----END X-----
tail")%string
    = ("junk
" ++ begin_line ++ body ++ end_line ++ "tail")%string
    /\ PEMBlock.begin_match begin_line = Some "X"%string
    /\ PEMBlock.end_match "X" end_line = true
    /\ (fun _ : string => Ok [x41; x42; x43]) body = Ok [x41; x42; x43].
Proof.
  apply (pem_decode_accounts_for_text (fun _ => Ok [x41; x42; x43])
           _ _ _ (PEMBlock.mk "X" [x41; x42; x43])).
  reflexivity.
Defined.

(** *** The BEGIN and END patterns *)

Lemma strip_literal_spec (lit : list ascii) :
  forall s r, PEMBlock.strip_literal lit s = Some r <-> s = (lit ++ r)%list.
Proof.
  induction lit as [|c lit IH]; intros s r; cbn [PEMBlock.strip_literal app].
  - split; [intros H; injection H as ->; reflexivity|intros ->; reflexivity].
  - destruct s as [|d s]; [split; discriminate|].
    destruct (Ascii.eqb_spec c d) as [->|NE].
    + rewrite IH. split; [intros ->; reflexivity|intros H; injection H as ->; reflexivity].
    + split; [discriminate|intros H; injection H as -> _; contradiction].
Qed.

Lemma dash_free_run_spec (s : list ascii) :
  forall run rest,
    PEMBlock.dash_free_run s = (run, rest) ->
    s = (run ++ rest)%list
    /\ Forall (fun c => c <> PEMBlock.dash) run
    /\ (forall c tl, rest = c :: tl -> c = PEMBlock.dash).
Proof.
  induction s as [|c s IH]; intros run rest; cbn [PEMBlock.dash_free_run].
  - intros H. injection H as <- <-. repeat split; [constructor|discriminate].
  - destruct (Ascii.eqb_spec c PEMBlock.dash) as [->|NE].
    + intros H. injection H as <- <-.
      repeat split; [constructor|]. intros c tl H. injection H as <- _. reflexivity.
    + destruct (PEMBlock.dash_free_run s) as [run' rest'].
      intros H. injection H as <- <-.
      destruct (IH run' rest' eq_refl) as (-> & Hrun & Hrest).
      repeat split; [constructor; assumption|assumption].
Qed.

Lemma dash_free_run_app (run tl : list ascii) :
  Forall (fun c => c <> PEMBlock.dash) run ->
  PEMBlock.dash_free_run (run ++ PEMBlock.dash :: tl)
  = (run, PEMBlock.dash :: tl).
Proof.
  induction 1 as [|c run Hc _ IH]; cbn [app PEMBlock.dash_free_run].
  - rewrite Ascii.eqb_refl. reflexivity.
  - destruct (Ascii.eqb_spec c PEMBlock.dash); [contradiction|].
    rewrite IH. reflexivity.
Qed.

Lemma at_dollar_spec (s : list ascii) :
  PEMBlock.at_dollar s = true <-> s = [] \/ s = [PEMBlock.newline].
Proof.
  destruct s as [|c [|d s]]; cbn [PEMBlock.at_dollar].
  - split; auto.
  - destruct (Ascii.eqb_spec c PEMBlock.newline) as [->|NE].
    + split; auto.
    + split; [discriminate|]. intros [H|H]; [discriminate|].
      injection H as ->. contradiction.
  - split; [discriminate|]. intros [H|H]; discriminate.
Qed.

Lemma string_eq_of_list (a b : string) :
  list_ascii_of_string a = list_ascii_of_string b -> a = b.
Proof.
  intros H. rewrite <- (string_of_list_ascii_of_string a),
              <- (string_of_list_ascii_of_string b), H. reflexivity.
Qed.

(** X25.  The BEGIN pattern matches exactly the lines that are
    "-----BEGIN ", a non-empty label without a dash, and "-----", with or
    without one final newline, and yields that label.  The END pattern for a
    name matches exactly "-----END ", that very name and "-----", with or
    without one final newline: an END line with another label does not close
    the block. *)
Theorem pem_marker_patterns :
  forall ln label : string,
    (PEMBlock.begin_match ln = Some label
     <-> label <> ""%string
         /\ Forall (fun c => c <> PEMBlock.dash) (list_ascii_of_string label)
         /\ (ln = ("-----BEGIN " ++ label ++ "-----")%string
             \/ ln = ("-----BEGIN " ++ label ++ "-----" ++ String PEMBlock.newline "")%string))
    /\ (PEMBlock.end_match label ln = true
        <-> ln = ("-----END " ++ label ++ "-----")%string
            \/ ln = (("-----END " ++ label ++ "-----") ++ String PEMBlock.newline "")%string).
Proof.
  intros ln label. split.
  - unfold PEMBlock.begin_match. split.
    + destruct (PEMBlock.strip_literal _ (list_ascii_of_string ln)) as [s|] eqn:Es;
        [|discriminate].
      apply strip_literal_spec in Es.
      destruct (PEMBlock.dash_free_run s) as [run rest] eqn:Er.
      apply dash_free_run_spec in Er as (-> & Hrun & _).
      destruct run as [|c run]; [discriminate|].
      destruct (PEMBlock.strip_literal _ rest) as [tl|] eqn:Et; [|discriminate].
      apply strip_literal_spec in Et. subst rest.
      destruct (PEMBlock.at_dollar tl) eqn:Ed; [|discriminate].
      apply at_dollar_spec in Ed. intros H.
      assert (El : label = string_of_list_ascii (c :: run)) by congruence.
      clear H. subst label.
      split; [discriminate|].
      rewrite list_ascii_of_string_of_list_ascii. split; [assumption|].
      destruct Ed as [-> | ->]; [left|right]; apply string_eq_of_list;
        rewrite Es, !list_ascii_of_string_app, list_ascii_of_string_of_list_ascii;
        rewrite ?app_nil_r; reflexivity.
    + intros (Hne & Hrun & Hln).
      assert (Hl : exists tl, (tl = [] \/ tl = [PEMBlock.newline])
                   /\ list_ascii_of_string ln
                      = (list_ascii_of_string "-----BEGIN "
                         ++ list_ascii_of_string label
                         ++ PEMBlock.dash :: list_ascii_of_string "----" ++ tl)%list).
      { destruct Hln as [-> | ->]; [exists []|exists [PEMBlock.newline]];
          (split; [auto|]); rewrite !list_ascii_of_string_app;
          rewrite ?app_nil_r; reflexivity. }
      destruct Hl as (tl & Htl & ->).
      replace (PEMBlock.strip_literal (list_ascii_of_string "-----BEGIN ") _)
        with (Some (list_ascii_of_string label
                    ++ PEMBlock.dash :: list_ascii_of_string "----" ++ tl)%list)
        by (symmetry; apply strip_literal_spec; reflexivity).
      rewrite dash_free_run_app by assumption.
      destruct (list_ascii_of_string label) as [|c run] eqn:El.
      { exfalso. apply Hne. apply string_eq_of_list. assumption. }
      replace (PEMBlock.strip_literal (list_ascii_of_string "-----") _)
        with (Some tl) by (symmetry; apply strip_literal_spec; reflexivity).
      replace (PEMBlock.at_dollar tl) with true
        by (symmetry; apply at_dollar_spec; assumption).
      rewrite <- El, string_of_list_ascii_of_string. reflexivity.
  - unfold PEMBlock.end_match. split.
    + destruct (PEMBlock.strip_literal _ (list_ascii_of_string ln)) as [tl|] eqn:Es;
        [|discriminate].
      apply strip_literal_spec in Es. intros Hd. apply at_dollar_spec in Hd.
      destruct Hd as [-> | ->]; [left|right]; apply string_eq_of_list;
        rewrite Es, ?list_ascii_of_string_app, ?app_nil_r; reflexivity.
    + intros Hln.
      assert (Hl : exists tl, (tl = [] \/ tl = [PEMBlock.newline])
                   /\ list_ascii_of_string ln
                      = (list_ascii_of_string ("-----END " ++ label ++ "-----")
                         ++ tl)%list).
      { destruct Hln as [-> | ->]; [exists []|exists [PEMBlock.newline]];
          (split; [auto|]); rewrite ?list_ascii_of_string_app, ?app_nil_r;
          reflexivity. }
      destruct Hl as (tl & Htl & ->).
      replace (PEMBlock.strip_literal _ _) with (Some tl)
        by (symmetry; apply strip_literal_spec; reflexivity).
      apply at_dollar_spec. assumption.
Qed.

(** *** DistinguishedName on a single-valued name *)

Lemma decode_set_unfold (utf8_decode : bytes -> result string) (x : byte) (b : bytes) :
  DistinguishedName.decode_set utf8_decode (List.length (x :: b)) (x :: b)
  = ('(bit, set_b) <- DistinguishedName.decode_pair utf8_decode (x :: b) ;;
     rest <- DistinguishedName.decode_set utf8_decode (List.length b) set_b ;;
     Ok (bit :: rest)).
Proof. reflexivity. Qed.

Lemma decode_sets_unfold (utf8_decode : bytes -> result string) (x : byte) (b : bytes) :
  DistinguishedName.decode_sets utf8_decode (List.length (x :: b)) (x :: b)
  = ('(set_b, b') <- enter 0x31 (x :: b) ;;
     set_bits <- DistinguishedName.decode_set utf8_decode (List.length set_b) set_b ;;
     rest <- DistinguishedName.decode_sets utf8_decode (List.length b) b' ;;
     Ok (set_bits :: rest)).
Proof. reflexivity. Qed.

Lemma decode_set_nil (utf8_decode : bytes -> result string) (fuel : nat) :
  DistinguishedName.decode_set utf8_decode fuel [] = Ok [].
Proof. destruct fuel; reflexivity. Qed.

Lemma decode_sets_nil (utf8_decode : bytes -> result string) (fuel : nat) :
  DistinguishedName.decode_sets utf8_decode fuel [] = Ok [].
Proof. destruct fuel; reflexivity. Qed.

(** X26.  [DistinguishedName.from_der] reads a name of one relative name
    SET (0x31) holding one attribute SEQUENCE (0x30) of exactly one
    identifier and one directory string: it returns the identifier's arcs
    with the UTF-8 decoding of the string's content octets (or raises what
    that decoding raises) and, untouched, what follows the name. *)
Theorem distinguished_name_single_attribute :
  forall (utf8_decode : bytes -> result string) (o : ObjectID.t)
         (oid_der slb v lb_seq lb_set lb_dn rem : bytes) (s0 : byte),
    encodable_oid o ->
    ObjectID.as_der o = Ok oid_der ->
    DistinguishedName.is_string_tag s0 = true ->
    (forall r, _decode_len (slb ++ v ++ r) = Ok (len v, slb, v ++ r)) ->
    _encode_len (len (oid_der ++ s0 :: slb ++ v)) = Ok lb_seq ->
    _encode_len (len (x30 :: lb_seq ++ oid_der ++ s0 :: slb ++ v)) = Ok lb_set ->
    _encode_len (len (x31 :: lb_set ++ x30 :: lb_seq ++ oid_der ++ s0 :: slb ++ v))
    = Ok lb_dn ->
    DistinguishedName.from_der utf8_decode
      (x30 :: lb_dn
       ++ (x31 :: lb_set ++ x30 :: lb_seq ++ oid_der ++ s0 :: slb ++ v) ++ rem)
    = (s <- utf8_decode v ;;
       Ok (DistinguishedName.mk [[(anonymous o, s)]], rem)).
Proof.
  intros utf8_decode o oid_der slb v lb_seq lb_set lb_dn rem s0
         Ho Eo Htag Hs Hseq Hset Hdn.
  pose proof (decode_pair_single_value utf8_decode o oid_der lb_seq s0 slb v []
                Ho Eo Htag Hs Hseq) as Hp.
  rewrite app_nil_r in Hp.
  remember (lb_seq ++ oid_der ++ s0 :: slb ++ v) as attr_tl eqn:Eattr.
  assert (Hattr : DistinguishedName.decode_set utf8_decode
                    (List.length (x30 :: attr_tl)) (x30 :: attr_tl)
                  = (s <- utf8_decode v ;; Ok [(anonymous o, s)])).
  { rewrite decode_set_unfold, Hp.
    destruct (utf8_decode v); cbn [bind]; [|reflexivity].
    rewrite decode_set_nil. reflexivity. }
  assert (Henter : enter 0x31 (x31 :: lb_set ++ x30 :: attr_tl)
                   = Ok (x30 :: attr_tl, [])).
  { replace (x31 :: lb_set ++ x30 :: attr_tl)
      with (x31 :: lb_set ++ (x30 :: attr_tl) ++ [])
      by (rewrite app_nil_r; reflexivity).
    change 0x31 with (bv x31). apply enter_complete.
    intros r. apply decode_encode_len; [apply len_nonneg|assumption]. }
  unfold DistinguishedName.from_der. change 0x30 with (bv x30).
  rewrite enter_complete
    by (intros r; apply decode_encode_len; [apply len_nonneg|assumption]).
  cbn [bind]. rewrite decode_sets_unfold, Henter. cbn [bind].
  rewrite Hattr. destruct (utf8_decode v); cbn [bind]; [|reflexivity].
  rewrite decode_sets_nil. reflexivity.
Qed.

Lemma distinguished_name_single_attribute_sample :
  DistinguishedName.from_der (fun b => Ok (string_of_list_byte b))
    (x30 :: [x0c]
     ++ (x31 :: [x0a] ++ x30 :: [x08] ++ [x06; x03; x55; x04; x03]
         ++ x0c :: [x01] ++ [x41]) ++ [xff])
  = (s <- (fun b => Ok (string_of_list_byte b)) [x41] ;;
     Ok (DistinguishedName.mk [[(anonymous commonName, s)]], [xff])).
Proof.
  apply (distinguished_name_single_attribute
           (fun b => Ok (string_of_list_byte b)) commonName).
  - unfold encodable_oid.
    repeat first
      [ apply Forall_nil | apply Forall_cons | split | lia
      | progress cbn [encodable_arcs ObjectID.oid commonName]
      | (vm_compute; reflexivity) ].
  - reflexivity.
  - reflexivity.
  - intros r. reflexivity.
  - reflexivity.
  - reflexivity.
  - reflexivity.
Defined.
